(** * pykern.pkconfig: declarative module configuration

    A shallow embedding of [pykern/pkconfig.py]: keys, flattening and
    merging of configuration sources, the load path, declarations and the
    three resolvers, followed by the properties of the configuration
    engine that were checked against it.

    Python objects are modelled as follows.
    - [str] is [string] (a sequence of 8-bit characters), compared and
      sorted byte-wise as Python does.
    - A [dict] that is only indexed or iterated through [sorted] is a
      [gmap] from the flat key string; the stored key object (a [_Key]
      with its [parts], or a plain [str]) is kept next to the value,
      because an assignment to an existing key keeps the old key object.
    - A [dict] whose iteration order matters (a nested configuration
      source, [os.environ], keyword arguments) is an association list in
      iteration order.
    - The module-level list [_load_path] is mutated in place and aliased,
      so list objects of package names live in a heap and are named by
      their location.
    - An exception is a value of [exn]; a function that can raise returns
      a [result]. Loops that are not bounded by their input take fuel and
      answer [None] when it runs out. *)

From Stdlib Require Import String Ascii ZArith List Lia.
From stdpp Require Import base option list gmap strings pretty sorting fin_maps.

Set Warnings "-register-all".

Local Open Scope string_scope.
Local Open Scope list_scope.

(** ** Values, exceptions, results *)

(** The Python values that flow through the configuration engine. [VMap]
    stands for a [dict] or a [pkcollections.OrderedMapping] held as a
    value (a default, a resolved group); the nesting of a configuration
    source itself is [nested] below. *)
Inductive value : Type :=
| VNone
| VInt (z : Z)
| VStr (s : string)
| VVerbatim (s : string)
| VList (l : list value)
| VMap (d : list (string * value)).

(** Nested dictionaries with leaves of type [A]: what a channel function
    returns ([A := value]) and what [init] receives ([A := decl_spec]).
    [Node] is exactly the case [isinstance(v, dict)]. *)
Inductive nested (A : Type) : Type :=
| Leaf (a : A)
| Node (d : list (string * nested A)).
Arguments Leaf {A} a.
Arguments Node {A} d.

(** One piece of an exception message built with ['...'.format(...)]:
    literal text, or the place where an object is rendered. *)
Inductive frag : Type :=
| Lit (s : string)
| Shown (v : value)
| ShownKeyRe.

Inductive exn : Type :=
| AssertionError (msg : list frag)
| KeyError (key : string)
| IndexError (msg : string)
| ValueError (msg : string)
| NameError (name : string)
| TypeError (msg : string)
| AttributeError (msg : string)
| Unmodelled (what : string).

Inductive result (A : Type) : Type :=
| Ok (a : A)
| Err (e : exn).
Arguments Ok {A} a.
Arguments Err {A} e.

Global Instance result_ret : MRet result := fun A a => Ok a.
Global Instance result_bind : MBind result := fun A B f r =>
  match r with
  | Ok a => f a
  | Err e => Err e
  end.
Global Instance result_fmap : FMap result := fun A B f r =>
  match r with
  | Ok a => Ok (f a)
  | Err e => Err e
  end.

(** [isinstance(v, list)], [v is None], [isinstance(v, _string_types)],
    [isinstance(v, Verbatim)] and Python truthiness. *)
Definition is_list (v : value) : bool :=
  match v with VList _ => true | _ => false end.
Definition is_none (v : value) : bool :=
  match v with VNone => true | _ => false end.
Definition is_string (v : value) : bool :=
  match v with VStr _ | VVerbatim _ => true | _ => false end.
Definition is_verbatim (v : value) : bool :=
  match v with VVerbatim _ => true | _ => false end.
Definition is_map (v : value) : bool :=
  match v with VMap _ => true | _ => false end.

Definition truthy (v : value) : bool :=
  match v with
  | VNone => false
  | VInt z => negb (z =? 0)%Z
  | VStr s | VVerbatim s => negb (String.eqb s "")
  | VList l => match l with [] => false | _ => true end
  | VMap d => match d with [] => false | _ => true end
  end.

(** ** Strings *)

Definition is_lower (c : ascii) : bool := Ascii.leb "a" c && Ascii.leb c "z".
Definition is_upper (c : ascii) : bool := Ascii.leb "A" c && Ascii.leb c "Z".
Definition is_digit (c : ascii) : bool := Ascii.leb "0" c && Ascii.leb c "9".
Definition is_alnum (c : ascii) : bool := is_lower c || is_upper c || is_digit c.
Definition is_word (c : ascii) : bool := is_alnum c || Ascii.eqb c "_".

Definition upper_ascii (c : ascii) : ascii :=
  if is_lower c then ascii_of_nat (nat_of_ascii c - 32) else c.

(** [s.upper()] on ASCII text: the letters [a] to [z] are mapped, every
    other character is kept. *)
Fixpoint upper (s : string) : string :=
  match s with
  | EmptyString => EmptyString
  | String c s' => String (upper_ascii c) (upper s')
  end.

(** [sep.join(parts)] *)
Fixpoint join (sep : string) (parts : list string) : string :=
  match parts with
  | [] => ""
  | [p] => p
  | p :: ps => p +:+ sep +:+ join sep ps
  end.

(** [s.split(sep)] for a one-character separator: never empty, and an
    empty piece for every adjacent pair of separators. *)
Fixpoint split (sep : ascii) (s : string) : list string :=
  match s with
  | EmptyString => [""]
  | String c s' =>
      if Ascii.eqb c sep then "" :: split sep s'
      else match split sep s' with
           | [] => [String c ""]
           | p :: ps => String c p :: ps
           end
  end.

(** [s.startswith(p)] *)
Definition startswith (s p : string) : bool := String.prefix p s.

(** [s[n:]] *)
Fixpoint drop_string (n : nat) (s : string) : string :=
  match n, s with
  | O, _ => s
  | S n', String _ s' => drop_string n' s'
  | S _, EmptyString => EmptyString
  end.

(** [sorted] on strings. *)
Definition str_le (a b : string) : Prop := String.leb a b = true.
Global Instance str_le_dec a b : Decision (str_le a b).
Proof. unfold str_le. apply _. Defined.

Definition sorted (l : list string) : list string := merge_sort str_le l.

(** ** Module constants *)

Definition CHANNEL_ENV_NAME : string := "PYKERN_PKCONFIG_CHANNEL".
Definition LOAD_PATH_ENV_NAME : string := "PYKERN_PKCONFIG_LOAD_PATH".
Definition LOAD_PATH_SEP : ascii := ":"%char.
Definition THIS_PACKAGE : string := "pykern".
Definition VALID_CHANNELS : list string := ["dev"; "alpha"; "beta"; "prod"].
Definition CHANNEL_DEFAULT : string := "dev".

(** [KEY_RE.search(s)] for
    [KEY_RE = re.compile('^[a-z][a-z0-9_]*[a-z0-9]$', flags=re.IGNORECASE)].
    [$] also matches just before a newline that ends the string, and no
    character class of the pattern contains a newline. *)
Fixpoint chomp_nl (s : string) : string :=
  match s with
  | EmptyString => EmptyString
  | String c EmptyString => if Ascii.eqb c "010" then EmptyString else s
  | String c s' => String c (chomp_nl s')
  end.

Fixpoint key_rest (s : string) : bool :=
  match s with
  | EmptyString => false
  | String c EmptyString => is_alnum c
  | String c s' => is_word c && key_rest s'
  end.

Definition KEY_RE_search (s : string) : bool :=
  match chomp_nl s with
  | EmptyString => false
  | String c rest => (is_lower c || is_upper c) && key_rest rest
  end.

(** ** Keys *)

(** [class _Key(str)]: the [str] value is [flat]; [msg] is derived. *)
Record _Key : Type := mk_Key { flat : string; parts : list string }.

Definition _Key_new (ps : list string) : _Key :=
  {| flat := upper (join "_" ps); parts := ps |}.

Definition msg (k : _Key) : string := join "." (parts k).

(** A flat dictionary. Under the flat key string it holds the [parts]
    of the key object stored in the dictionary ([None] when that key is
    a plain [str]) and the value. *)
Abbreviation flatmap A := (gmap string (option (list string) * A)).

(** [d[k] = v]: an existing entry keeps its key object. *)
Definition setitem {A} (k : string) (kparts : option (list string)) (v : A)
    (d : flatmap A) : flatmap A :=
  match d !! k with
  | Some (p, _) => <[k := (p, v)]> d
  | None => <[k := (kparts, v)]> d
  end.

(** [d[k]] and [k in d] *)
Definition getitem {A} (d : flatmap A) (k : string) : option A :=
  snd <$> d !! k.
Definition contains {A} (d : flatmap A) (k : string) : bool :=
  bool_decide (is_Some (d !! k)).

(** [sorted(d.keys())] *)
Definition sorted_keys {A} (d : flatmap A) : list string :=
  sorted (fst <$> map_to_list d).

(** ** Flattening *)

(** [_flatten_keys(key_parts, values, res)], as a walk over the items of
    the dictionary [values]. Only leaves are stored. *)
Fixpoint flatten_items {A} (key_parts : list string)
    (values : nested A) (res : flatmap A) {struct values}
    : result (flatmap A) :=
  match values with
  | Leaf _ => Ok res
  | Node d =>
      (fix loop (items : list (string * nested A)) (res : flatmap A)
           {struct items} : result (flatmap A) :=
         match items with
         | [] => Ok res
         | (k0, v) :: items' =>
             let k := _Key_new (key_parts ++ split "." k0) in
             if negb (KEY_RE_search (flat k)) then
               Err (AssertionError
                      [Lit (msg k); Lit ": invalid key must match "; ShownKeyRe])
             else if contains res (flat k) then
               Err (AssertionError [Lit (msg k); Lit ": duplicate key"])
             else
               match v with
               | Node _ =>
                   res' ← flatten_items (parts k) v res;
                   loop items' res'
               | Leaf a =>
                   loop items' (<[flat k := (Some (parts k), a)]> res)
               end
         end) d res
  end.

Definition _flatten_keys {A} (key_parts : list string)
    (values : list (string * nested A)) (res : flatmap A)
    : result (flatmap A) :=
  flatten_items key_parts (Node values) res.


(** ** Exception messages *)

(** The exception raised where the source builds an assertion message
    with ['...'.format(...)]: rendering a [Verbatim] argument raises from
    [Verbatim.__format__] before the message exists. *)
Definition verbatim_refusal (s : string) : exn :=
  AssertionError [Lit s; Lit ": you cannot refer to this formatted value"].

Fixpoint first_verbatim (m : list frag) : option string :=
  match m with
  | [] => None
  | Shown (VVerbatim s) :: _ => Some s
  | _ :: m' => first_verbatim m'
  end.

Definition assertion (m : list frag) : exn :=
  match first_verbatim m with
  | Some s => verbatim_refusal s
  | None => AssertionError m
  end.

(** [k.msg] of a stored key object; a plain [str] has no such attribute. *)
Definition key_msg (kparts : option (list string)) : result string :=
  match kparts with
  | Some ps => Ok (join "." ps)
  | None => Err (AttributeError "'str' object has no attribute 'msg'")
  end.

(** ** Merging a source into the raw values *)

(** A [for] loop over a list whose body may raise. *)
Fixpoint for_each {A S} (body : S -> A -> result S) (l : list A) (s : S)
    : result S :=
  match l with
  | [] => Ok s
  | a :: l' => s' ← body s a; for_each body l' s'
  end.

(** The body of the loop of [_values_flatten] for the key [k] of
    [new_values], stored there with [kparts] and the value [n]. *)
Definition merge_key (base : flatmap value) (k : string)
    (kparts : option (list string)) (n : value) : result (flatmap value) :=
  n' ← match getitem base k with
       | Some b =>
           if is_list b || is_list n then
             if is_none b || is_none n then Ok n
             else match b, n with
                  | VList lb, VList ln => Ok (VList (ln ++ lb))
                  | _, _ =>
                      m ← key_msg kparts;
                      Err (assertion
                             [Lit m; Lit ": type mismatch between new value (";
                              Shown n; Lit ") and base ("; Shown b; Lit ")"])
                  end
           else Ok n
       | None => Ok n
       end;
  Ok (setitem k kparts n' base).

Definition _values_flatten (base : flatmap value)
    (new : list (string * nested value)) : result (flatmap value) :=
  new_values ← _flatten_keys [] new ∅;
  for_each
    (fun base k =>
       match new_values !! k with
       | Some (kparts, n) => merge_key base k kparts n
       | None => Err (KeyError k)
       end)
    (sorted_keys new_values) base.

(** ** Dictionaries in iteration order *)

Fixpoint alist_get {A} (d : list (string * A)) (k : string) : option A :=
  match d with
  | [] => None
  | (k', v) :: d' => if String.eqb k' k then Some v else alist_get d' k
  end.

(** [d[k] = v]: in place for an existing key, at the end for a new one. *)
Fixpoint alist_set {A} (k : string) (v : A) (d : list (string * A))
    : list (string * A) :=
  match d with
  | [] => [(k, v)]
  | (k', v') :: d' =>
      if String.eqb k' k then (k', v) :: d' else (k', v') :: alist_set k v d'
  end.

(** ** The process environment and the configuration files *)

(** What the engine reads from outside: [os.environ]; for a package [p]
    the import of [p.base_pkconfig] ([None]: [ImportError]) and the file
    [~/.p_pkconfig.py] ([None]: no such file). A loaded module maps a
    channel name to what its channel function returns ([None]: the module
    has no such attribute). *)
Record world : Type := {
  environ : list (string * string);
  base_pkconfig :
    string -> option (string -> option (list (string * nested value)));
  home_pkconfig :
    string -> option (string -> option (list (string * nested value)))
}.

(** [os.getenv(name)] *)
Definition getenv (w : world) (name : string) : option string :=
  alist_get (environ w) name.

(** [_clean_environ()]: the body of its loop, and the loop. *)
Definition clean_step (res : list (string * value)) (kv : string * string)
    : list (string * value) :=
  let '(k, v) := kv in
  if KEY_RE_search k then
    alist_set k (if (0 <? String.length v)%nat then VStr v else VNone) res
  else res.

Definition _clean_environ (w : world) : list (string * value) :=
  foldl clean_step [] (environ w).

(** A flat dictionary of values read as a configuration source. *)
Definition as_source (d : list (string * value))
    : list (string * nested value) :=
  (fun '(k, v) => (k, Leaf v)) <$> d.

(** ** Module state *)

(** Locations of list objects. *)
Definition loc : Type := nat.

(** The module globals. [LOAD_PATH_DEFAULT = [THIS_PACKAGE]] is the list
    object at location [0], and [_load_path = LOAD_PATH_DEFAULT] binds
    the same object. *)
Record pystate : Type := {
  heap : list (list string);
  _load_path : loc;
  _raw_values : option (flatmap value);
  _parsed_values : option (flatmap value);
  cfg : option value
}.

Definition LOAD_PATH_DEFAULT : loc := 0%nat.

Definition initial_state : pystate :=
  {| heap := [[THIS_PACKAGE]];
     _load_path := LOAD_PATH_DEFAULT;
     _raw_values := None;
     _parsed_values := None;
     cfg := None |}.

(** The list object at a location. *)
Definition deref (h : list (list string)) (l : loc) : list string :=
  default [] (h !! l).

(** [lst.append(p)] on the object at [l]. *)
Definition heap_append (l : loc) (p : string) (h : list (list string))
    : list (list string) :=
  <[l := deref h l ++ [p]]> h.

Definition set_heap (h : list (list string)) (st : pystate) : pystate :=
  {| heap := h; _load_path := _load_path st; _raw_values := _raw_values st;
     _parsed_values := _parsed_values st; cfg := cfg st |}.
Definition set_raw_values (r : option (flatmap value)) (st : pystate)
    : pystate :=
  {| heap := heap st; _load_path := _load_path st; _raw_values := r;
     _parsed_values := _parsed_values st; cfg := cfg st |}.
Definition set_parsed_values (p : option (flatmap value)) (st : pystate)
    : pystate :=
  {| heap := heap st; _load_path := _load_path st;
     _raw_values := _raw_values st; _parsed_values := p; cfg := cfg st |}.
Definition set_cfg (c : option value) (st : pystate) : pystate :=
  {| heap := heap st; _load_path := _load_path st;
     _raw_values := _raw_values st; _parsed_values := _parsed_values st;
     cfg := c |}.

(** Truthiness of [_raw_values]: [None] and the empty dictionary are
    false. *)
Definition raw_values_truthy (st : pystate) : bool :=
  match _raw_values st with
  | None => false
  | Some d => negb (bool_decide (d = ∅))
  end.

(** ** The load path *)

(** The argument of [append_load_path]: [None], a string, or a list
    object. *)
Inductive load_path_arg : Type :=
| LpNone
| LpStr (s : string)
| LpList (l : loc).

(** [_load_path_parser(value)]; the result is a fresh list. *)
Definition _load_path_parser (h : list (list string)) (value : load_path_arg)
    : list string :=
  match value with
  | LpNone => []
  | LpStr s => if String.eqb s "" then [] else split LOAD_PATH_SEP s
  | LpList l => deref h l
  end.

(** [append_load_path(load_path)]. [prev] is bound to the list object
    [_load_path] itself, and [prev != _load_path] compares the contents
    of the two objects after the loop. *)
Definition append_load_path (load_path : load_path_arg) (st : pystate)
    : result unit * pystate :=
  let prev := _load_path st in
  let st1 :=
    foldl
      (fun st p =>
         if bool_decide (p ∈ deref (heap st) (_load_path st)) then st
         else set_heap (heap_append (_load_path st) p (heap st)) st)
      st (_load_path_parser (heap st) load_path) in
  if bool_decide (deref (heap st1) prev ≠ deref (heap st1) (_load_path st1))
  then
    if raw_values_truthy st1 then
      (Err (AssertionError
              [Lit "Values coalesced before load_path is initialized"]), st1)
    else (Ok (), st1)
  else (Ok (), st1).

(** [reset_state_for_testing()] *)
Definition reset_state_for_testing (st : pystate) : pystate :=
  set_raw_values None st.

(** ** Declarations *)

(** A parser is a callable. The engine asks three things of it: whether
    it is the built-in [list] or [dict] ([list == decl.parser]), whether
    it carries the attribute [pykern_pkconfig_parse_none], and what it
    returns when called. *)
Inductive callable_id : Type :=
| builtin_list
| builtin_dict
| other_callable.

Record callable : Type := {
  ident : callable_id;
  parse_none_attr : bool;
  call : value -> result value
}.

(** What a module passes to [init] for one parameter: a 3-tuple
    [(default, parser, docstring)] or [Required(parser, docstring)],
    which is the tuple [(None, parser, docstring)] of class [Required]. *)
Inductive decl_spec : Type :=
| Tuple3 (default : value) (parser : callable) (docstring : string)
| Required (parser : callable) (docstring : string).

(** [class _Declaration] *)
Record _Declaration : Type := {
  default : value;
  parser : option callable;
  docstring : string;
  group : option (list (string * nested decl_spec));
  required : bool
}.

(** [_Declaration(value)] *)
Definition _Declaration_init (value : nested decl_spec) : _Declaration :=
  match value with
  | Node d =>
      {| group := Some d; parser := None; default := VNone; docstring := "";
         required := false |}
  | Leaf (Tuple3 d p doc) =>
      {| default := d; parser := Some p; docstring := doc; group := None;
         required := false |}
  | Leaf (Required p doc) =>
      {| default := VNone; parser := Some p; docstring := doc; group := None;
         required := true |}
  end.

(** ** [str.format] with keyword arguments only *)

(** [format(v, '')] of an argument. A [Verbatim] refuses; lists and
    mappings are rendered by [repr], which is outside the model. *)
Definition format_value (v : value) : result string :=
  match v with
  | VStr s => Ok s
  | VVerbatim s => Err (verbatim_refusal s)
  | VNone => Ok "None"
  | VInt z => Ok (pretty z)
  | VList _ | VMap _ => Err (Unmodelled "format of a list or a mapping")
  end.

Fixpoint all_digits (s : string) : bool :=
  match s with
  | EmptyString => true
  | String c s' => is_digit c && all_digits s'
  end.

(** The argument a replacement field names. There are no positional
    arguments, so an empty or numeric name is out of range. *)
Definition format_field (kwargs : flatmap value) (name : string)
    : result string :=
  if all_digits name then Err (IndexError "tuple index out of range")
  else match getitem kwargs name with
       | Some v => format_value v
       | None => Err (KeyError name)
       end.

(** Characters that start a conversion, a format specification, an
    attribute or index access, or a nested field: outside the model. *)
Definition field_special (c : ascii) : bool :=
  Ascii.eqb c "{" || Ascii.eqb c "!" || Ascii.eqb c ":" || Ascii.eqb c "."
  || Ascii.eqb c "[".

(** [s.format] applied to the keyword arguments [kwargs], scanning left
    to right. [field] is [None] in
    literal text and holds the name read so far inside a replacement
    field. [{{] and [}}] are the escapes of a brace. *)
Fixpoint format_scan (kwargs : flatmap value) (s : string)
    (field : option string) {struct s} : result string :=
  match s, field with
  | EmptyString, None => Ok ""
  | EmptyString, Some _ => Err (ValueError "unmatched '{' in format")
  | String c s', None =>
      if Ascii.eqb c "{" then
        match s' with
        | EmptyString =>
            Err (ValueError "Single '{' encountered in format string")
        | String c' s'' =>
            if Ascii.eqb c' "{" then
              out ← format_scan kwargs s'' None; Ok (String "{" out)
            else format_scan kwargs s' (Some "")
        end
      else if Ascii.eqb c "}" then
        match s' with
        | String c' s'' =>
            if Ascii.eqb c' "}" then
              out ← format_scan kwargs s'' None; Ok (String "}" out)
            else Err (ValueError "Single '}' encountered in format string")
        | EmptyString =>
            Err (ValueError "Single '}' encountered in format string")
        end
      else out ← format_scan kwargs s' None; Ok (String c out)
  | String c s', Some name =>
      if Ascii.eqb c "}" then
        v ← format_field kwargs name;
        out ← format_scan kwargs s' None;
        Ok (v +:+ out)
      else if field_special c then
        Err (Unmodelled "replacement field beyond a plain name")
      else format_scan kwargs s' (Some (name +:+ String c ""))
  end.

(** [res.format] applied to the keyword arguments [_parsed_values]. *)
Definition str_format (s : string) (parsed : option (flatmap value))
    : result string :=
  match parsed with
  | Some kwargs => format_scan kwargs s None
  | None =>
      Err (TypeError "format() argument after ** must be a mapping, not NoneType")
  end.

(** ** Resolvers *)

(** The [while] loop of [_resolve_value]: [seen] holds the strings
    already formatted. [None] when the fuel runs out. *)
Fixpoint interpolate (fuel : nat) (parsed : option (flatmap value))
    (seen : gset string) (res : value) : option (result value) :=
  match res with
  | VStr s =>
      if bool_decide (s ∈ seen) then Some (Ok res)
      else match fuel with
           | O => None
           | S fuel' =>
               match str_format s parsed with
               | Ok s' => interpolate fuel' parsed ({[s]} ∪ seen) (VStr s')
               | Err e => Some (Err e)
               end
           end
  | _ => Some (Ok res)
  end.

Definition not_iterable : exn :=
  TypeError "argument of type 'NoneType' is not iterable".
Definition not_callable : exn :=
  TypeError "'NoneType' object is not callable".

(** [_resolve_value(key, decl)] *)
Definition _resolve_value (fuel : nat) (st : pystate) (key : _Key)
    (decl : _Declaration) : option (result value) :=
  match _raw_values st with
  | None => Some (Err not_iterable)
  | Some raw =>
      let start :=
        match getitem raw (flat key) with
        | Some v => Ok v
        | None =>
            if required decl then
              Err (AssertionError
                     [Lit (msg key);
                      Lit ": config value missing and is required"])
            else Ok (default decl)
        end in
      match start with
      | Err e => Some (Err e)
      | Ok res0 =>
          match interpolate fuel (_parsed_values st) ∅ res0 with
          | None => None
          | Some (Err e) => Some (Err e)
          | Some (Ok res) =>
              match parser decl with
              | None =>
                  if is_none res then Some (Ok VNone)
                  else Some (Err not_callable)
              | Some p =>
                  if is_none res && negb (parse_none_attr p) then
                    Some (Ok VNone)
                  else Some (call p res)
              end
          end
      end
  end.

(** [_resolve_list(key, decl)]. The message of the assertion on a
    missing required value refers to [k], a name that is not bound in
    this function. *)
Definition _resolve_list (st : pystate) (key : _Key) (decl : _Declaration)
    : result value :=
  let res := if truthy (default decl) then default decl else VList [] in
  match res with
  | VList res_items =>
      match _raw_values st with
      | None => Err not_iterable
      | Some raw =>
          match getitem raw (flat key) with
          | None => if required decl then Err (NameError "k") else Ok res
          | Some (VList items) => Ok (VList (items ++ res_items))
          | Some VNone => Ok VNone
          | Some v =>
              Err (assertion
                     [Lit (msg key); Lit ": value ("; Shown v;
                      Lit ") must be a list or None"])
          end
      end
  | _ =>
      Err (assertion
             [Lit (msg key); Lit ": default ("; Shown (default decl);
              Lit ") must be a list"])
  end.

(** Modelled from the spec: [pkcollections.OrderedMapping], the
    ordered-mapping container used as the output structure, is not part
    of these sources. It is a [VMap]; [OrderedMapping(d)] copies the
    mapping [d], and what the constructor does with another object is
    outside the model. *)
Definition OrderedMapping (v : value) : result (list (string * value)) :=
  match v with
  | VMap d => Ok d
  | _ => Err (Unmodelled "OrderedMapping of an object that is not a mapping")
  end.

(** The inner loop of [_resolve_dict] over [kp], then [r[ki] = v]. *)
Fixpoint dict_fold_in (kmsg : string) (kp : list string) (ki : string)
    (v : value) (r : list (string * value))
    : result (list (string * value)) :=
  match kp with
  | [] => Ok (alist_set ki v r)
  | k2 :: kp' =>
      match alist_get r k2 with
      | None =>
          sub ← dict_fold_in kmsg kp' ki v [];
          Ok (alist_set k2 (VMap sub) r)
      | Some (VMap sub) =>
          sub' ← dict_fold_in kmsg kp' ki v sub;
          Ok (alist_set k2 (VMap sub') r)
      | Some x =>
          Err (assertion
                 [Lit kmsg; Lit ": type collision on existing non-dict (";
                  Lit k2; Lit "="; Shown x; Lit ")"])
      end
  end.

(** [parts[n:-1]] and [parts[-1]] *)
Definition slice_to_last {A} (n : nat) (l : list A) : list A :=
  drop n (removelast l).
Definition last_item {A} (l : list A) : result A :=
  match last l with
  | Some a => Ok a
  | None => Err (IndexError "list index out of range")
  end.

Definition no_parts : exn :=
  AttributeError "'str' object has no attribute 'parts'".

(** [_resolve_dict(key, decl)] *)
Definition _resolve_dict (st : pystate) (key : _Key) (decl : _Declaration)
    : result value :=
  res ← OrderedMapping (if truthy (default decl) then default decl
                        else VMap []);
  match _raw_values st with
  | None => Err (AttributeError "'NoneType' object has no attribute 'keys'")
  | Some raw =>
      let key_prefix := flat key +:+ "_" in
      res' ← for_each
        (fun res k =>
           if negb (String.eqb k (flat key)) && negb (startswith k key_prefix)
           then Ok res
           else
             match raw !! k with
             | None => Err (KeyError k)
             | Some (None, _) => Err no_parts
             | Some (Some kparts, v) =>
                 match kparts with
                 | [p] =>
                     Ok (alist_set (drop_string (String.length key_prefix) p)
                                   v res)
                 | _ =>
                     ki ← last_item kparts;
                     dict_fold_in (join "." kparts)
                       (slice_to_last (length (parts key)) kparts) ki v res
                 end
             end)
        (reverse (sorted_keys raw)) res;
      Ok (VMap res')
  end.

(** [_resolver(decl)] *)
Definition _resolver (decl : _Declaration)
    : nat -> pystate -> _Key -> _Declaration -> option (result value) :=
  match ident <$> parser decl with
  | Some builtin_dict => fun _ st key d => Some (_resolve_dict st key d)
  | Some builtin_list => fun _ st key d => Some (_resolve_list st key d)
  | _ => _resolve_value
  end.

(** ** Resolving the declarations of a module *)

(** The walk of [_iter_decls] from [res] down the mappings named by
    [path], creating the missing ones, and then [final] on the innermost
    mapping. Indexing a value that is not a mapping is outside the
    model. *)
Fixpoint res_walk (path : list string)
    (final : list (string * value) -> list (string * value))
    (r : list (string * value)) : result (list (string * value)) :=
  match path with
  | [] => Ok (final r)
  | kp :: path' =>
      match alist_get r kp with
      | None =>
          sub ← res_walk path' final []; Ok (alist_set kp (VMap sub) r)
      | Some (VMap sub) =>
          sub' ← res_walk path' final sub; Ok (alist_set kp (VMap sub') r)
      | Some _ => Err (Unmodelled "item access on a resolved value")
      end
  end.

(** [_parsed_values[k] = v] *)
Definition record_parsed (k : _Key) (v : value) (st : pystate)
    : result pystate :=
  match _parsed_values st with
  | None =>
      Err (TypeError "'NoneType' object does not support item assignment")
  | Some pv =>
      Ok (set_parsed_values (Some (setitem (flat k) (Some (parts k)) v pv)) st)
  end.

(** The body of the loop of [_iter_decls] for the key object [k] of
    [decls] and the [spec] declared under it. *)
Definition iter_decl (fuel : nat) (k : _Key) (spec : decl_spec)
    (res : list (string * value)) (st : pystate)
    : option (result (list (string * value)) * pystate) :=
  let d := _Declaration_init (Leaf spec) in
  let path := removelast (parts k) in
  match res_walk path (fun r => r) res, last_item (parts k) with
  | Err e, _ | _, Err e => Some (Err e, st)
  | Ok _, Ok kp =>
      if match group d with Some (_ :: _) => true | _ => false end then
        Some (res_walk path (alist_set kp (VMap [])) res, st)
      else
        match _resolver d fuel st k d with
        | None => None
        | Some (Err e) => Some (Err e, st)
        | Some (Ok v) =>
            match res_walk path (alist_set kp v) res with
            | Err e => Some (Err e, st)
            | Ok res' =>
                match record_parsed k v st with
                | Err e => Some (Err e, st)
                | Ok st' => Some (Ok res', st')
                end
            end
        end
  end.

(** [_iter_decls(decls, res)] over the keys still to visit. *)
Fixpoint iter_decls_loop (fuel : nat) (decls : flatmap decl_spec)
    (keys : list string) (res : list (string * value)) (st : pystate)
    : option (result (list (string * value)) * pystate) :=
  match keys with
  | [] => Some (Ok res, st)
  | k :: keys' =>
      match decls !! k with
      | None => Some (Err (KeyError k), st)
      | Some (None, _) => Some (Err no_parts, st)
      | Some (Some kparts, spec) =>
          match iter_decl fuel (mk_Key k kparts) spec res st with
          | None => None
          | Some (Err e, st') => Some (Err e, st')
          | Some (Ok res', st') => iter_decls_loop fuel decls keys' res' st'
          end
      end
  end.

Definition _iter_decls (fuel : nat) (decls : flatmap decl_spec)
    (res : list (string * value)) (st : pystate)
    : option (result (list (string * value)) * pystate) :=
  iter_decls_loop fuel decls (sorted_keys decls) res st.

(** ** Coalescing and registration *)

(** A package name that a pattern takes literally: word characters
    only. *)
Fixpoint word_name (p : string) : bool :=
  match p with
  | EmptyString => true
  | String c p' => is_word c && word_name p'
  end.

(** [r.search(k)] for the pattern ['^(p1|p2|...)_$'], case-insensitive,
    that [_init_parsed_values] builds from the load path [p1, p2, ...]
    without escaping. It is modelled for package names of word
    characters, where each alternative matches only itself: the name,
    the underscore, and the end of [k] or the newline that ends [k].
    An empty load path gives the pattern ['^()_$']. *)
Definition load_path_re_search (lp : list string) (k : string) : bool :=
  existsb (fun p => String.eqb (upper (chomp_nl k)) (upper (p +:+ "_")))
          (match lp with [] => [""] | _ => lp end).

(** [_init_parsed_values(env)]. A load path with a package name that has
    a character the pattern would interpret is outside the model: the
    answer is [Unmodelled], after the parsed values were emptied. *)
Definition _init_parsed_values (env : list (string * value)) (st : pystate)
    : result unit * pystate :=
  let lp := deref (heap st) (_load_path st) in
  if forallb word_name lp then
    (Ok (),
     set_parsed_values
       (Some (foldl
                (fun pv '(k, v) =>
                   if load_path_re_search lp k then pv
                   else setitem (flat (_Key_new [k])) (Some [k]) v pv)
                ∅ env))
       st)
  else
    (Err (Unmodelled "load path with a package name beyond word characters"),
     set_parsed_values (Some ∅) st).

(** The built-in callables [str], [list] and [dict], as far as they are
    called on the values of the model. *)
Definition chars (s : string) : list value :=
  (fun c => VStr (String c "")) <$> list_ascii_of_string s.

Definition py_str : callable :=
  {| ident := other_callable;
     parse_none_attr := false;
     call := fun v =>
       match v with
       | VStr s | VVerbatim s => Ok (VStr s)
       | VNone => Ok (VStr "None")
       | VInt z => Ok (VStr (pretty z))
       | VList _ | VMap _ => Err (Unmodelled "str of a list or a mapping")
       end |}.

Definition py_list : callable :=
  {| ident := builtin_list;
     parse_none_attr := false;
     call := fun v =>
       match v with
       | VList l => Ok (VList l)
       | VStr s | VVerbatim s => Ok (VList (chars s))
       | VMap d => Ok (VList ((fun kv => VStr kv.1) <$> d))
       | VNone | VInt _ => Err (TypeError "object is not iterable")
       end |}.

Definition py_dict : callable :=
  {| ident := builtin_dict;
     parse_none_attr := false;
     call := fun v =>
       match v with
       | VMap d => Ok (VMap d)
       | _ => Err (Unmodelled "dict of an object that is not a mapping")
       end |}.

(** Who calls [init]: the program's entry point ([__main__]), or a module
    known by its dotted name, found on the call stack or passed as
    [_caller_module]. *)
Inductive caller : Type :=
| caller_main
| caller_module (name : string).

(** Modelled from the spec: [pkinspect.root_package], not part of these
    sources, gives the root package of a module, the first segment of
    its dotted name. *)
Definition root_package (name : string) : string :=
  match split "." name with
  | [] => ""
  | root :: _ => root
  end.

(** [res = res[k]] for each segment of the module's name. *)
Fixpoint subscript_path (path : list string) (res : value) : result value :=
  match path with
  | [] => Ok res
  | k :: path' =>
      match res with
      | VMap d =>
          match alist_get d k with
          | Some v => subscript_path path' v
          | None => Err (KeyError k)
          end
      | _ => Err (Unmodelled "item access on a resolved value")
      end
  end.

(** One turn of the two loops of [_coalesce_values] over the load path:
    the channel function of a loaded module merged into [values]. *)
Definition merge_module (channel : string)
    (m : option (string -> option (list (string * nested value))))
    (values : flatmap value) : result (flatmap value) :=
  match m with
  | None => Ok values
  | Some attrs =>
      match attrs channel with
      | None => Err (AttributeError channel)
      | Some new => _values_flatten values new
      end
  end.

Definition pkconfig_decls : list (string * nested decl_spec) :=
  [("load_path", Leaf (Required py_list "list of packages to configure"));
   ("channel", Leaf (Required py_str "which (stage) function returns config"))].

(** [init] and [_coalesce_values] call each other; [fuel] bounds the
    depth of the calls and every interpolation loop below them. The
    first component of the answer of [init] is [None] where the source
    returns nothing ([__main__]). *)
Fixpoint init (fuel : nat) (w : world) (m : caller)
    (kwargs : list (string * nested decl_spec)) (st : pystate) {struct fuel}
    : option (result (option value) * pystate) :=
  match fuel with
  | O => None
  | S fuel' =>
      match m with
      | caller_main => Some (Ok None, st)
      | caller_module name =>
          let lp := deref (heap st) (_load_path st) in
          if negb (bool_decide (root_package name ∈ lp)) then
            Some (Err (AssertionError
                         [Lit name; Lit ": module root not in load_path (";
                          Shown (VList (VStr <$> lp)); Lit ")"]), st)
          else
            let mnp := split "." name in
            let kwargs := foldr (fun k kw => [(k, Node kw)]) kwargs mnp in
            match _flatten_keys [] kwargs ∅ with
            | Err e => Some (Err e, st)
            | Ok decls =>
                match _coalesce_values fuel' w st with
                | None => None
                | Some (Err e, st1) => Some (Err e, st1)
                | Some (Ok _, st1) =>
                    match _iter_decls fuel' decls [] st1 with
                    | None => None
                    | Some (Err e, st2) => Some (Err e, st2)
                    | Some (Ok res, st2) =>
                        Some (Some <$> subscript_path mnp (VMap res), st2)
                    end
                end
            end
      end
  end
with _coalesce_values (fuel : nat) (w : world) (st : pystate) {struct fuel}
    : option (result (option (flatmap value)) * pystate) :=
  match fuel with
  | O => None
  | S fuel' =>
      if raw_values_truthy st then Some (Ok (_raw_values st), st)
      else
        let arg := match getenv w LOAD_PATH_ENV_NAME with
                   | Some s => LpStr s
                   | None => LpList LOAD_PATH_DEFAULT
                   end in
        match append_load_path arg st with
        | (Err e, st1) => Some (Err e, st1)
        | (Ok _, st1) =>
            let channel := from_option id CHANNEL_DEFAULT
                                       (getenv w CHANNEL_ENV_NAME) in
            if negb (bool_decide (channel ∈ VALID_CHANNELS)) then
              Some (Err (AssertionError
                           [Lit channel; Lit ": invalid $";
                            Lit CHANNEL_ENV_NAME; Lit "; must be ";
                            Lit "('dev', 'alpha', 'beta', 'prod')"]), st1)
            else
              let lp := deref (heap st1) (_load_path st1) in
              let env := _clean_environ w in
              match
                values ← for_each
                  (fun values p => merge_module channel (base_pkconfig w p) values)
                  lp ∅;
                values ← for_each
                  (fun values p => merge_module channel (home_pkconfig w p) values)
                  lp values;
                _values_flatten values (as_source env)
              with
              | Err e => Some (Err e, st1)
              | Ok values =>
                  let values :=
                    setitem CHANNEL_ENV_NAME None (VStr channel) values in
                  let values :=
                    setitem LOAD_PATH_ENV_NAME None (VList (VStr <$> lp))
                            values in
                  let st2 := set_raw_values (Some values) st1 in
                  match _init_parsed_values env st2 with
                  | (Err e, st3) => Some (Err e, st3)
                  | (Ok _, st3) =>
                      match init fuel' w (caller_module "pykern.pkconfig")
                                 pkconfig_decls st3 with
                      | None => None
                      | Some (Err e, st4) => Some (Err e, st4)
                      | Some (Ok c, st4) =>
                          Some (Ok (_raw_values st4), set_cfg c st4)
                      end
                  end
              end
        end
  end.

(** ** Example inputs *)

(** The state of a process that has coalesced its values with an empty
    environment and no configuration file. *)
Definition bare_world : world :=
  {| environ := [];
     base_pkconfig := fun _ => None;
     home_pkconfig := fun _ => None |}.

Definition coalesced_state : pystate :=
  match _coalesce_values 3 bare_world initial_state with
  | Some (_, st) => st
  | None => initial_state
  end.

Definition raw_items : flatmap value :=
  <["PKG_MOD_ITEMS" := (Some ["pkg"; "mod"; "items"], VList [VStr "c1"])]> ∅.

Definition raw_login : flatmap value :=
  <["APP_LOGIN" := (Some ["app"; "login"], VVerbatim "Hello {user}")]> ∅.


(** ** The leaves of a configuration source *)

(** The flat key a sequence of path segments is stored under. *)
Definition flat_of (ps : list string) : string := flat (_Key_new ps).

(** The leaves a walk of [_flatten_keys] meets, in the order it meets
    them, each with the parts of its key. *)
Fixpoint leaves {A} (key_parts : list string) (values : nested A)
    : list (list string * A) :=
  match values with
  | Leaf _ => []
  | Node d =>
      (fix loop (items : list (string * nested A)) : list (list string * A) :=
         match items with
         | [] => []
         | (k0, v) :: items' =>
             let ps := key_parts ++ split "." k0 in
             match v with
             | Node _ => leaves ps v ++ loop items'
             | Leaf a => (ps, a) :: loop items'
             end
         end) d
  end.

(** Whether every key the walk builds, of a leaf or of a nested
    dictionary, matches [KEY_RE]. *)
Fixpoint keys_valid {A} (key_parts : list string) (values : nested A) : bool :=
  match values with
  | Leaf _ => true
  | Node d =>
      (fix loop (items : list (string * nested A)) : bool :=
         match items with
         | [] => true
         | (k0, v) :: items' =>
             let ps := key_parts ++ split "." k0 in
             KEY_RE_search (flat_of ps) && keys_valid ps v && loop items'
         end) d
  end.

(** ** The merge rule, case by case *)

(** A list meets a value that is neither a list nor [None]. *)
Definition collides (b n : value) : bool :=
  (is_list b || is_list n) && negb (is_none b || is_none n)
  && negb (is_list b && is_list n).

(** What a key holds after a merge that does not fail. *)
Definition merge_result (b n : value) : value :=
  match b, n with
  | VList lb, VList ln => VList (ln ++ lb)
  | _, _ => n
  end.

(** Two packages whose base configurations reach one key by different
    nestings. *)
Definition two_packages : world :=
  {| environ := [(LOAD_PATH_ENV_NAME, "p1:p2")];
     base_pkconfig := fun p =>
       if String.eqb p "p1" then
         Some (fun _ =>
                 Some [("pkg", Node [("sub", Node [("name", Leaf (VStr "one"))])])])
       else if String.eqb p "p2" then
         Some (fun _ => Some [("pkg.sub", Node [("name", Leaf (VStr "two"))])])
       else None;
     home_pkconfig := fun _ => None |}.


Definition raw_unset : flatmap value :=
  <["PKG_MOD_X" := (Some ["PKG_MOD_X"], VNone)]>
    (<["HOME" := (Some ["HOME"], VStr "/root")]> ∅).

Definition world_unset : world :=
  {| environ := [("HOME", "/root"); ("PKG_MOD_X", "")];
     base_pkconfig := fun _ => None;
     home_pkconfig := fun _ => None |}.

(** ** Interpolation, step by step *)

(** The string after [n] substitutions, the first one applied to [s]. *)
Fixpoint iterate_format (n : nat) (parsed : option (flatmap value))
    (s : string) : result string :=
  match n with
  | O => Ok s
  | S n' => s' ← str_format s parsed; iterate_format n' parsed s'
  end.

(** A replacement field that is a plain name: no closing brace and none
    of the characters that start a conversion, a specification, an
    attribute, an index or a nested field. *)
Fixpoint plain_name (name : string) : bool :=
  match name with
  | EmptyString => true
  | String c name' =>
      negb (Ascii.eqb c "}") && negb (field_special c) && plain_name name'
  end.


(** A process whose environment sets [AB] to a text that refers to [AB]
    itself and adds a letter, and whose package [pkg] configures a
    parameter as a reference to [AB]. *)
Definition growing_world : world :=
  {| environ := [("AB", "{AB}x"); (LOAD_PATH_ENV_NAME, "pkg")];
     base_pkconfig := fun p =>
       if String.eqb p "pkg" then
         Some (fun _ => Some [("pkg", Node [("mod", Node [("x", Leaf (VStr "{AB}"))])])])
       else None;
     home_pkconfig := fun _ => None |}.

Definition growing_state : pystate :=
  match _coalesce_values 3 growing_world initial_state with
  | Some (_, st) => st
  | None => initial_state
  end.


(** A parsed value that is a [Verbatim]. *)
Definition parsed_template : flatmap value :=
  <["APP_LOGIN" := (Some ["app"; "login"], VVerbatim "Hello {user}")]> ∅.

(** A text that refers to a parsed value which refers to the
    [Verbatim]. *)
Definition parsed_relay : flatmap value :=
  <["APP_MSG" := (Some ["app"; "msg"], VStr "say {APP_LOGIN}!")]>
    parsed_template.
Definition raw_relay : flatmap value :=
  <["APP_GREETING" := (Some ["app"; "greeting"], VStr "{APP_MSG}")]> ∅.


Definition entry_state : pystate :=
  (append_load_path (LpStr "pkg") initial_state).2.

(** The package [pkg] whose base configuration sets the parameter [a] of
    [pkg.mod] to a [Verbatim] and the parameter [b] to a text that
    refers to [a]. *)
Definition verbatim_package : world :=
  {| environ := [];
     base_pkconfig := fun p =>
       if String.eqb p "pkg" then
         Some (fun _ =>
                 Some [("pkg",
                        Node [("mod",
                               Node [("a", Leaf (VVerbatim "secret"));
                                     ("b", Leaf (VStr "{PKG_MOD_A}!"))])])])
       else None;
     home_pkconfig := fun _ => None |}.


(** ** Channels *)

(** [INTERNAL_TEST_CHANNELS = VALID_CHANNELS[0:2]] *)
Definition INTERNAL_TEST_CHANNELS : list string := take 2 VALID_CHANNELS.

(** [cfg.channel]. Modelled from the spec: [cfg] is the ordered mapping
    [init] returned for this module, read by attribute. *)
Definition cfg_channel (st : pystate) : result value :=
  match cfg st with
  | Some (VMap d) =>
      match alist_get d "channel" with
      | Some v => Ok v
      | None => Err (AttributeError "channel")
      end
  | _ => Err (AttributeError "channel")
  end.

(** [a == v] for a string [a]. *)
Definition str_eq_value (a : string) (v : value) : bool :=
  match v with
  | VStr s | VVerbatim s => String.eqb a s
  | _ => false
  end.

(** The loop of [channel_in] from the current [res]. *)
Fixpoint channel_in_from (res : bool) (args : list string) (st : pystate)
    : result bool :=
  match args with
  | [] => Ok res
  | a :: args' =>
      if negb (bool_decide (a ∈ VALID_CHANNELS)) then
        Err (AssertionError [Lit a; Lit ": invalid channel argument"])
      else
        c ← cfg_channel st;
        channel_in_from (if str_eq_value a c then true else res) args' st
  end.

(** [channel_in( *args )] *)
Definition channel_in (args : list string) (st : pystate) : result bool :=
  channel_in_from false args st.

(** [channel_in_internal_test()] *)
Definition channel_in_internal_test (st : pystate) : result bool :=
  channel_in INTERNAL_TEST_CHANNELS st.

(** ** More example inputs *)

Definition nested_source : list (string * nested value) :=
  [("pkg", Node [("mod", Node [("x", Leaf (VInt 1)); ("y.z", Leaf (VInt 2))])])].

Definition flat_nested_source : flatmap value :=
  <["PKG_MOD_Y_Z" := (Some ["pkg"; "mod"; "y"; "z"], VInt 2)]>
    (<["PKG_MOD_X" := (Some ["pkg"; "mod"; "x"], VInt 1)]> ∅).

(** A text without braces. *)
Fixpoint no_brace (s : string) : bool :=
  match s with
  | EmptyString => true
  | String c s' =>
      negb (Ascii.eqb c "{") && negb (Ascii.eqb c "}") && no_brace s'
  end.

Definition cfg_of_channel (c : string) : pystate :=
  set_cfg (Some (VMap [("channel", VStr c); ("load_path", VList [VStr "pykern"])]))
          initial_state.

Definition parsed_home : flatmap value :=
  <["HOME" := (Some ["HOME"], VStr "/root")]> ∅.

Definition raw_escaped : flatmap value :=
  <["PKG_MOD_X" := (Some ["pkg"; "mod"; "x"], VStr "{{HOME}}")]> ∅.

(** The declarations of [pykern.pkconfig] itself, flattened. *)
Definition pkconfig_flat_decls : flatmap decl_spec :=
  <["PYKERN_PKCONFIG_CHANNEL" :=
      (Some ["pykern"; "pkconfig"; "channel"],
       Required py_str "which (stage) function returns config")]>
    (<["PYKERN_PKCONFIG_LOAD_PATH" :=
         (Some ["pykern"; "pkconfig"; "load_path"],
          Required py_list "list of packages to configure")]> ∅).

Definition decls_y : flatmap decl_spec :=
  <["PKG_MOD_Y" := (Some ["pkg"; "mod"; "y"], Tuple3 (VStr "b") py_str "")]> ∅.

Definition parsed_after_y : flatmap value :=
  <["PKG_MOD_Y" := (Some ["pkg"; "mod"; "y"], VStr "b")]> ∅.

(** What the channel function of a loaded module supplies under the flat
    key [k]; nothing when the module is missing. *)
Definition supplied (channel : string)
    (m : option (string -> option (list (string * nested value))))
    (k : string) : option value :=
  match m with
  | Some attrs =>
      match attrs channel with
      | Some new =>
          match _flatten_keys [] new ∅ with
          | Ok new_values => getitem new_values k
          | Err _ => None
          end
      | None => None
      end
  | None => None
  end.

(** ** Helpers of the statements *)

(** The last character of a string, if any. *)
Fixpoint last_char (s : string) : option ascii :=
  match s with
  | EmptyString => None
  | String c EmptyString => Some c
  | String _ s' => last_char s'
  end.

(** What a function leaves of the module state: everything but the
    parsed values. *)
Definition same_but_parsed (st st' : pystate) : Prop :=
  heap st' = heap st /\ _load_path st' = _load_path st
  /\ _raw_values st' = _raw_values st /\ cfg st' = cfg st.

(** A text of ASCII characters only. On such a text [upper] is
    [str.upper]; beyond ASCII the two differ, as [str.upper] can change
    the number of characters. *)
Fixpoint ascii_only (s : string) : bool :=
  match s with
  | EmptyString => true
  | String c s' => (nat_of_ascii c <? 128)%nat && ascii_only s'
  end.

(** * Properties *)

(** ** The load path *)

Lemma append_loop_load_path (ps : list string) (st : pystate) :
  _load_path
    (foldl
       (fun st p =>
          if bool_decide (p ∈ deref (heap st) (_load_path st)) then st
          else set_heap (heap_append (_load_path st) p (heap st)) st)
       st ps)
  = _load_path st.
Proof.
  revert st. induction ps as [|p ps IH]; intros st; simpl; [done|].
  rewrite IH. by case_bool_decide.
Qed.

(** [prev] and [_load_path] name one list object, so the comparison that
    guards the assertion of [append_load_path] never sees a difference:
    the call returns normally whatever the state. *)
Lemma append_load_path_returns (arg : load_path_arg) (st : pystate) :
  (append_load_path arg st).1 = Ok ().
Proof.
  unfold append_load_path. rewrite append_loop_load_path.
  rewrite bool_decide_eq_false_2; [done|]. intros H. by apply H.
Qed.


(** C4, at the failing input: once the raw values are computed, a call
    that names a new package still returns normally and the package is
    in the load path afterwards; the assertion is never reached. *)
Theorem append_load_path_after_coalescing :
  raw_values_truthy coalesced_state = true /\
  deref (heap coalesced_state) (_load_path coalesced_state) = ["pykern"] /\
  let (r, st) := append_load_path (LpStr "newpkg") coalesced_state in
  r = Ok () /\
  deref (heap st) (_load_path st) = ["pykern"; "newpkg"] /\
  raw_values_truthy st = true.
Proof. vm_compute. repeat split; reflexivity. Qed.

(** ** Resolvers *)

Section Resolvers.
Variables (st : pystate) (raw : flatmap value).
Hypothesis Hraw : _raw_values st = Some raw.

Lemma interpolate_not_str fuel parsed seen (res : value) :
  (forall s, res <> VStr s) ->
  interpolate fuel parsed seen res = Some (Ok res).
Proof. intros H. destruct fuel, res; try done; by destruct (H s). Qed.

Lemma resolve_value_present fuel key decl (v : value) :
  getitem raw (flat key) = Some v ->
  (forall s, v <> VStr s) ->
  _resolve_value fuel st key decl =
    match parser decl with
    | None => if is_none v then Some (Ok VNone) else Some (Err not_callable)
    | Some p =>
        if is_none v && negb (parse_none_attr p) then Some (Ok VNone)
        else Some (call p v)
    end.
Proof.
  intros Hv Hs. unfold _resolve_value. rewrite Hraw, Hv.
  by rewrite interpolate_not_str.
Qed.

Lemma resolver_list (p : callable) (decl : _Declaration) :
  parser decl = Some p -> ident p = builtin_list ->
  forall fuel key, _resolver decl fuel st key decl
                   = Some (_resolve_list st key decl).
Proof. intros Hp Hi fuel key. unfold _resolver. by rewrite Hp; simpl; rewrite Hi. Qed.

Lemma resolver_dict (p : callable) (decl : _Declaration) :
  parser decl = Some p -> ident p = builtin_dict ->
  forall fuel key, _resolver decl fuel st key decl
                   = Some (_resolve_dict st key decl).
Proof. intros Hp Hi fuel key. unfold _resolver. by rewrite Hp; simpl; rewrite Hi. Qed.

Lemma resolver_scalar (p : callable) (decl : _Declaration) :
  parser decl = Some p -> ident p = other_callable ->
  forall fuel key, _resolver decl fuel st key decl
                   = _resolve_value fuel st key decl.
Proof. intros Hp Hi fuel key. unfold _resolver. by rewrite Hp; simpl; rewrite Hi. Qed.
End Resolvers.

(** C7. A declaration [(d, list, doc)] with a list [d] as its default
    resolves, for a raw list [v], to [v] followed by [d]; for a raw
    [None], to [None]; for any other raw value, to a failure; and for an
    absent key, to [d]. *)
Theorem resolve_list_rule (st : pystate) (raw : flatmap value) (fuel : nat)
    (key : _Key) (p : callable) (d : list value) (doc : string) :
  _raw_values st = Some raw ->
  ident p = builtin_list ->
  let decl := _Declaration_init (Leaf (Tuple3 (VList d) p doc)) in
  let resolved := _resolver decl fuel st key decl in
  (forall v, getitem raw (flat key) = Some (VList v) ->
             resolved = Some (Ok (VList (v ++ d)))) /\
  (getitem raw (flat key) = Some VNone -> resolved = Some (Ok VNone)) /\
  (forall x, getitem raw (flat key) = Some x ->
             is_list x = false -> is_none x = false ->
             exists m, resolved = Some (Err (AssertionError m))) /\
  (getitem raw (flat key) = None -> resolved = Some (Ok (VList d))).
Proof.
  intros Hraw Hp decl resolved.
  assert (Hres : resolved = Some (_resolve_list st key decl))
    by (by apply (resolver_list st p)).
  rewrite Hres. unfold _resolve_list. rewrite Hraw. simpl.
  assert (Hd : (if match d with [] => false | _ :: _ => true end
                then VList d else VList []) = VList d) by (by destruct d).
  rewrite Hd. repeat split.
  - intros v Hv. by rewrite Hv.
  - intros Hv. by rewrite Hv.
  - intros x Hx Hl Hn. rewrite Hx.
    destruct x; try done; unfold assertion; simpl; eauto.
  - intros Hv. by rewrite Hv.
Qed.


(** Scenario 2: default [["d1"]], base configuration [["c1"]], resolved
    [["c1"; "d1"]]. *)
Lemma resolve_list_rule_witness :
  _resolver (_Declaration_init (Leaf (Tuple3 (VList [VStr "d1"]) py_list "")))
    0 (set_raw_values (Some raw_items) initial_state)
    (_Key_new ["pkg"; "mod"; "items"])
    (_Declaration_init (Leaf (Tuple3 (VList [VStr "d1"]) py_list "")))
  = Some (Ok (VList [VStr "c1"; VStr "d1"])).
Proof.
  exact (proj1 (resolve_list_rule
                  (set_raw_values (Some raw_items) initial_state)
                  raw_items 0 (_Key_new ["pkg"; "mod"; "items"]) py_list
                  [VStr "d1"] "" eq_refl eq_refl)
           [VStr "c1"] eq_refl).
Defined.

(** C9. A [Verbatim] raw value is handed to the parser as it is, with no
    turn of the interpolation loop, whatever it contains and whatever the
    parsed values are; every other test the engine makes on a value
    answers for a [Verbatim] as for the plain string. *)
Theorem verbatim_not_interpolated (st : pystate) (raw : flatmap value)
    (fuel : nat) (key : _Key) (decl : _Declaration) (p : callable)
    (s : string) :
  _raw_values st = Some raw ->
  getitem raw (flat key) = Some (VVerbatim s) ->
  parser decl = Some p ->
  _resolve_value fuel st key decl = Some (call p (VVerbatim s)) /\
  is_string (VVerbatim s) = is_string (VStr s) /\
  is_list (VVerbatim s) = is_list (VStr s) /\
  is_none (VVerbatim s) = is_none (VStr s) /\
  is_map (VVerbatim s) = is_map (VStr s) /\
  truthy (VVerbatim s) = truthy (VStr s).
Proof.
  intros Hraw Hv Hp. split; [|done].
  rewrite (resolve_value_present st raw Hraw fuel key decl _ Hv) by done.
  by rewrite Hp.
Qed.


Lemma verbatim_not_interpolated_witness :
  _resolve_value 0 (set_raw_values (Some raw_login) initial_state)
    (_Key_new ["app"; "login"])
    (_Declaration_init (Leaf (Tuple3 VNone py_str "")))
  = Some (Ok (VStr "Hello {user}")).
Proof.
  exact (proj1 (verbatim_not_interpolated
                  (set_raw_values (Some raw_login) initial_state) raw_login 0
                  (_Key_new ["app"; "login"])
                  (_Declaration_init (Leaf (Tuple3 VNone py_str ""))) py_str
                  "Hello {user}" eq_refl eq_refl eq_refl)).
Defined.

(** ** Flat dictionaries *)

Lemma getitem_setitem {A} (k k' : string) (kp : option (list string)) (v : A)
    (d : flatmap A) :
  getitem (setitem k kp v d) k' = if decide (k = k') then Some v else getitem d k'.
Proof.
  unfold getitem, setitem.
  destruct (d !! k) as [[p a]|] eqn:Hk; rewrite lookup_insert;
    by case_decide.
Qed.

Lemma setitem_lookup_ne {A} (k k' : string) (kp : option (list string)) (v : A)
    (d : flatmap A) :
  k <> k' -> setitem k kp v d !! k' = d !! k'.
Proof.
  intros Hne. unfold setitem.
  destruct (d !! k) as [[p a]|]; by rewrite lookup_insert_ne.
Qed.

Lemma sorted_keys_elem {A} (d : flatmap A) (k : string) :
  k ∈ sorted_keys d <-> is_Some (d !! k).
Proof.
  unfold sorted_keys, sorted. rewrite merge_sort_Permutation.
  rewrite list_elem_of_fmap. split.
  - intros [[k' v] [-> Hin]]. apply elem_of_map_to_list in Hin. eauto.
  - intros [v Hv]. exists (k, v). split; [done|]. by apply elem_of_map_to_list.
Qed.

Lemma sorted_keys_NoDup {A} (d : flatmap A) : NoDup (sorted_keys d).
Proof.
  unfold sorted_keys, sorted. rewrite merge_sort_Permutation.
  apply NoDup_fst_map_to_list.
Qed.

(** ** Flattening *)

(** Induction on nested dictionaries, with the hypothesis for every
    item of a node. *)
Fixpoint nested_induction {A} (P : nested A -> Prop)
    (HL : forall a, P (Leaf a))
    (HN : forall d, Forall (fun kv => P kv.2) d -> P (Node d))
    (v : nested A) : P v :=
  match v with
  | Leaf a => HL a
  | Node d =>
      HN d ((fix items_ok (d : list (string * nested A))
               : Forall (fun kv => P kv.2) d :=
               match d with
               | [] => List.Forall_nil _
               | (k, v') :: d' =>
                   @List.Forall_cons _ (fun kv => P kv.2) (k, v') d'
                     (nested_induction P HL HN v') (items_ok d')
               end) d)
  end.

Section Flatten.
Context {A : Type}.

(** [res'] is [res] extended by the leaves [L]: every leaf is stored
    under a key that was free and that no other leaf shares. *)
Record extends (res : flatmap A) (L : list (list string * A))
    (res' : flatmap A) : Prop := {
  ext_leaf : forall ps a,
    (ps, a) ∈ L -> res' !! flat_of ps = Some (Some ps, a);
  ext_other : forall k,
    (forall ps a, (ps, a) ∈ L -> flat_of ps <> k) -> res' !! k = res !! k;
  ext_NoDup : NoDup ((fun e => flat_of e.1) <$> L);
  ext_free : forall ps a, (ps, a) ∈ L -> res !! flat_of ps = None
}.

Lemma extends_nil (res : flatmap A) : extends res [] res.
Proof.
  split; [intros ps a H; by apply elem_of_nil in H | done | constructor
         | intros ps a H; by apply elem_of_nil in H].
Qed.

Lemma extends_single (res : flatmap A) (ps : list string) (a : A) :
  res !! flat_of ps = None ->
  extends res [(ps, a)] (<[flat_of ps := (Some ps, a)]> res).
Proof.
  intros Hfree. split.
  - intros ps' a' Hin. apply list_elem_of_singleton in Hin as [= -> ->].
    by rewrite lookup_insert_eq.
  - intros k Hk. rewrite lookup_insert_ne; [done|].
    apply (Hk ps a). by apply list_elem_of_singleton.
  - simpl. apply NoDup_singleton.
  - intros ps' a' Hin. by apply list_elem_of_singleton in Hin as [= -> ->].
Qed.

Lemma extends_app (res res1 res' : flatmap A) (L1 L2 : list (list string * A)) :
  extends res L1 res1 -> extends res1 L2 res' -> extends res (L1 ++ L2) res'.
Proof.
  intros [leaf1 other1 nodup1 free1] [leaf2 other2 nodup2 free2].
  assert (Hdisj : forall ps1 a1 ps2 a2,
             (ps1, a1) ∈ L1 -> (ps2, a2) ∈ L2 -> flat_of ps2 <> flat_of ps1).
  { intros ps1 a1 ps2 a2 H1 H2 Heq.
    pose proof (leaf1 _ _ H1) as Hs. pose proof (free2 _ _ H2) as Hn.
    rewrite Heq in Hn. congruence. }
  split.
  - intros ps a Hin. apply elem_of_app in Hin as [Hin|Hin].
    + rewrite other2; [by apply (leaf1 ps a)|].
      intros ps2 a2 H2. by apply (Hdisj ps a ps2 a2).
    + by apply leaf2.
  - intros k Hk. rewrite other2, other1; [done| |].
    + intros ps a Hin. apply (Hk ps a), elem_of_app. by left.
    + intros ps a Hin. apply (Hk ps a), elem_of_app. by right.
  - rewrite fmap_app. apply NoDup_app. split; [done|]. split; [|done].
    intros k Hk1 Hk2.
    apply list_elem_of_fmap in Hk1 as [[ps1 a1] [-> H1]].
    apply list_elem_of_fmap in Hk2 as [[ps2 a2] [Heq H2]].
    simpl in Heq. by apply (Hdisj ps1 a1 ps2 a2).
  - intros ps a Hin. apply elem_of_app in Hin as [Hin|Hin].
    + by apply (free1 ps a).
    + rewrite <- other1; [by apply (free2 ps a)|].
      intros ps1 a1 H1 Heq. by apply (Hdisj ps1 a1 ps a).
Qed.

(** One turn of the loop of [_flatten_keys]. *)
Lemma flatten_items_cons (kp : list string) (k0 : string) (v : nested A)
    (d : list (string * nested A)) (res : flatmap A) :
  flatten_items kp (Node ((k0, v) :: d)) res =
    let k := _Key_new (kp ++ split "." k0) in
    if negb (KEY_RE_search (flat k)) then
      Err (AssertionError
             [Lit (msg k); Lit ": invalid key must match "; ShownKeyRe])
    else if contains res (flat k) then
      Err (AssertionError [Lit (msg k); Lit ": duplicate key"])
    else
      match v with
      | Node _ =>
          res' ← flatten_items (parts k) v res;
          flatten_items kp (Node d) res'
      | Leaf a =>
          flatten_items kp (Node d) (<[flat k := (Some (parts k), a)]> res)
      end.
Proof. reflexivity. Qed.

Lemma leaves_cons (kp : list string) (k0 : string) (v : nested A)
    (d : list (string * nested A)) :
  leaves kp (Node ((k0, v) :: d)) =
    match v with
    | Node _ => leaves (kp ++ split "." k0) v ++ leaves kp (Node d)
    | Leaf a => (kp ++ split "." k0, a) :: leaves kp (Node d)
    end.
Proof. reflexivity. Qed.

Lemma keys_valid_cons (kp : list string) (k0 : string) (v : nested A)
    (d : list (string * nested A)) :
  keys_valid kp (Node ((k0, v) :: d)) =
    KEY_RE_search (flat_of (kp ++ split "." k0))
    && keys_valid (kp ++ split "." k0) v && keys_valid kp (Node d).
Proof. reflexivity. Qed.

(** A walk that succeeds has stored every leaf it met, and no two of
    them under one key. *)
Lemma flatten_items_extends (v : nested A) :
  forall kp res res',
    flatten_items kp v res = Ok res' -> extends res (leaves kp v) res'.
Proof.
  induction v as [a|d IH] using nested_induction; intros kp res res' Hf.
  - injection Hf as <-. apply extends_nil.
  - revert res Hf. induction IH as [|[k0 v] d IHv _ IHd]; intros res Hf.
    + injection Hf as <-. apply extends_nil.
    + rewrite flatten_items_cons in Hf. rewrite leaves_cons.
      cbv zeta in Hf.
      destruct (KEY_RE_search _); [|done]. cbn [negb] in Hf.
      unfold contains in Hf. case_bool_decide as Hc; [done|].
      destruct v as [a|dv].
      * change ((kp ++ split "." k0, a) :: leaves kp (Node d))
          with ([(kp ++ split "." k0, a)] ++ leaves kp (Node d)).
        eapply extends_app; [|by apply IHd].
        apply extends_single. by apply eq_None_not_Some.
      * destruct (flatten_items (parts (_Key_new (kp ++ split "." k0)))
                    (Node dv) res) as [res1|] eqn:Hv; [|done].
        apply (extends_app _ res1); [by apply IHv|by apply IHd].
Qed.

End Flatten.

(** ** Merging *)

Lemma merge_key_cases (base : flatmap value) (k : string) (ps : list string)
    (n : value) :
  merge_key base k (Some ps) n =
    match getitem base k with
    | Some b =>
        if collides b n then
          Err (assertion
                 [Lit (join "." ps); Lit ": type mismatch between new value (";
                  Shown n; Lit ") and base ("; Shown b; Lit ")"])
        else Ok (setitem k (Some ps) (merge_result b n) base)
    | None => Ok (setitem k (Some ps) n base)
    end.
Proof.
  unfold merge_key. destruct (getitem base k) as [b|]; [|done].
  destruct b, n; reflexivity.
Qed.

Lemma assertion_is_AssertionError (m : list frag) :
  exists m', assertion m = AssertionError m'.
Proof. unfold assertion. destruct (first_verbatim m); by eexists. Qed.

Section MergeLoop.
Variable new_values : flatmap value.
Hypothesis stored_parts :
  forall k p n, new_values !! k = Some (p, n) -> is_Some p.

Let body (base : flatmap value) (k : string) : result (flatmap value) :=
  match new_values !! k with
  | Some (kparts, n) => merge_key base k kparts n
  | None => Err (KeyError k)
  end.

Lemma merge_body_cases (base : flatmap value) (k : string) (n : value) :
  getitem new_values k = Some n ->
  exists ps,
    body base k =
      match getitem base k with
      | Some b =>
          if collides b n then
            Err (assertion
                   [Lit (join "." ps);
                    Lit ": type mismatch between new value (";
                    Shown n; Lit ") and base ("; Shown b; Lit ")"])
          else Ok (setitem k (Some ps) (merge_result b n) base)
      | None => Ok (setitem k (Some ps) n base)
      end.
Proof.
  unfold getitem, body. destruct (new_values !! k) as [[p n']|] eqn:Hk; [|done].
  intros [= ->]. destruct (stored_parts _ _ _ Hk) as [ps ->].
  exists ps. apply merge_key_cases.
Qed.

(** A loop that ends has merged every key it visited by the rule, and
    none of them collided. *)
Lemma merge_loop_ok (ks : list string) :
  forall base base',
    NoDup ks ->
    (forall k, k ∈ ks -> is_Some (new_values !! k)) ->
    for_each body ks base = Ok base' ->
    (forall k n, k ∈ ks -> getitem new_values k = Some n ->
       getitem base' k
         = Some (match getitem base k with
                 | Some b => merge_result b n
                 | None => n
                 end)
       /\ forall b, getitem base k = Some b -> collides b n = false)
    /\ (forall k, k ∉ ks -> getitem base' k = getitem base k).
Proof.
  induction ks as [|k1 ks IH]; intros base base' Hnd Hin Hrun.
  - injection Hrun as <-. split; [|done]. intros k n Hk. by apply elem_of_nil in Hk.
  - apply NoDup_cons in Hnd as [Hk1 Hnd]. simpl in Hrun.
    destruct (body base k1) as [base1|] eqn:Hb; [|done]. simpl in Hrun.
    destruct (IH base1 base' Hnd
                (fun k Hk => Hin k (list_elem_of_further _ _ _ Hk)) Hrun)
      as [IHin IHout].
    destruct (Hin k1 (list_elem_of_here _ _)) as [[p1 n1] Hn1].
    assert (Hg1 : getitem new_values k1 = Some n1)
      by (unfold getitem; by rewrite Hn1).
    destruct (merge_body_cases base k1 n1 Hg1) as [ps Hcases].
    rewrite Hb in Hcases.
    assert (Hbase1 : forall k, k <> k1 -> getitem base1 k = getitem base k).
    { intros k Hne.
      destruct (getitem base k1) as [b|]; [destruct (collides b n1); [done|]|];
        injection Hcases as ->; rewrite getitem_setitem; by case_decide. }
    split.
    + intros k n Hk Hn. apply elem_of_cons in Hk as [->|Hk].
      * rewrite Hn in Hg1. injection Hg1 as <-.
        rewrite (IHout k1 Hk1).
        destruct (getitem base k1) as [b|].
        -- destruct (collides b n) eqn:Hc; [done|]. injection Hcases as ->.
           rewrite getitem_setitem. case_decide; [|done].
           split; [done|]. by intros b' [= <-].
        -- injection Hcases as ->. rewrite getitem_setitem.
           by case_decide.
      * assert (k <> k1) by (intros ->; done).
        rewrite <- (Hbase1 k) by done. by apply IHin.
    + intros k Hk. apply not_elem_of_cons in Hk as [Hne Hk].
      rewrite (IHout k Hk). by apply Hbase1.
Qed.

(** A loop that fails has met a collision, and fails with the
    assertion of the merge. *)
Lemma merge_loop_err (ks : list string) :
  forall base e,
    NoDup ks ->
    (forall k, k ∈ ks -> is_Some (new_values !! k)) ->
    for_each body ks base = Err e ->
    (exists m, e = AssertionError m)
    /\ exists k n b, k ∈ ks /\ getitem new_values k = Some n
                     /\ getitem base k = Some b /\ collides b n = true.
Proof.
  induction ks as [|k1 ks IH]; intros base e Hnd Hin Hrun; [done|].
  apply NoDup_cons in Hnd as [Hk1 Hnd]. simpl in Hrun.
  destruct (Hin k1 (list_elem_of_here _ _)) as [[p1 n1] Hn1].
  assert (Hg1 : getitem new_values k1 = Some n1)
    by (unfold getitem; by rewrite Hn1).
  destruct (merge_body_cases base k1 n1 Hg1) as [ps Hcases].
  destruct (body base k1) as [base1|e1] eqn:Hb; simpl in Hrun.
  - destruct (IH base1 e Hnd
                (fun k Hk => Hin k (list_elem_of_further _ _ _ Hk)) Hrun)
      as [He (k & n & b & Hk & Hn & Hbk & Hc)].
    split; [done|]. exists k, n, b. repeat split; try done.
    + by apply list_elem_of_further.
    + assert (k <> k1) by (intros ->; done).
      rewrite <- Hbk.
      destruct (getitem base k1) as [b1|]; [destruct (collides b1 n1); [done|]|];
        injection Hcases as ->; rewrite getitem_setitem; by case_decide.
  - injection Hrun as <-.
    destruct (getitem base k1) as [b1|] eqn:Hb1; [|done].
    destruct (collides b1 n1) eqn:Hc; [|done].
    injection Hcases as ->. split; [apply assertion_is_AssertionError|].
    exists k1, n1, b1. repeat split; try done. apply list_elem_of_here.
Qed.
End MergeLoop.

(** The keys of a flattened source carry their parts. *)
Lemma flatten_keys_parts {A} (new : list (string * nested A))
    (new_values : flatmap A) :
  _flatten_keys [] new ∅ = Ok new_values ->
  forall k p n, new_values !! k = Some (p, n) -> is_Some p.
Proof.
  intros Hf k p n Hk. apply flatten_items_extends in Hf as [leaf other _ _].
  destruct (decide (k ∈ (fun e => flat_of e.1) <$> leaves [] (Node new)))
    as [Hin|Hout].
  - apply list_elem_of_fmap in Hin as [[ps a] [Heq Hin]]. simpl in Heq.
    subst k. rewrite (leaf ps a Hin) in Hk. injection Hk as <- _. by eexists.
  - rewrite other in Hk; [by rewrite lookup_empty in Hk|].
    intros ps a Hin <-. apply Hout, list_elem_of_fmap. by exists (ps, a).
Qed.

(** C1, as the code has it. For a key of both maps: two lists are
    concatenated, the incoming one in front; a list against a value that
    is neither a list nor [None] fails the merge with the type-mismatch
    assertion; in every other case, [None] on either side included, the
    incoming value replaces the existing one. A merge in which no key
    meets such a mismatch succeeds. *)
Theorem values_flatten_merge_rule (base : flatmap value)
    (new : list (string * nested value)) (new_values : flatmap value)
    (k : string) (b n : value) :
  _flatten_keys [] new ∅ = Ok new_values ->
  getitem new_values k = Some n ->
  getitem base k = Some b ->
  (is_list b <> is_list n -> is_none b = false -> is_none n = false ->
   exists m, _values_flatten base new = Err (AssertionError m))
  /\ (forall base', _values_flatten base new = Ok base' ->
        getitem base' k
          = Some (match b, n with
                  | VList lb, VList ln => VList (ln ++ lb)
                  | _, _ => n
                  end))
  /\ ((forall k' b' n',
          getitem new_values k' = Some n' -> getitem base k' = Some b' ->
          is_list b' <> is_list n' -> is_none b' = true \/ is_none n' = true) ->
      exists base', _values_flatten base new = Ok base').
Proof.
  intros Hf Hn Hb.
  pose proof (flatten_keys_parts new new_values Hf) as Hparts.
  assert (Hks : forall k, k ∈ sorted_keys new_values -> is_Some (new_values !! k))
    by (intros k'; apply sorted_keys_elem).
  assert (Hk : k ∈ sorted_keys new_values).
  { apply sorted_keys_elem. unfold getitem in Hn.
    destruct (new_values !! k); [by eexists|done]. }
  unfold _values_flatten. rewrite Hf. simpl.
  split; [|split].
  - intros Hl Hb0 Hn0.
    match goal with |- exists m, ?run = _ => destruct run as [base'|e] eqn:Hrun end.
    + destruct (merge_loop_ok new_values Hparts _ _ _ (sorted_keys_NoDup _)
                  Hks Hrun) as [Hin _].
      destruct (Hin k n Hk Hn) as [_ Hc]. specialize (Hc b Hb).
      destruct b, n; done.
    + destruct (merge_loop_err new_values Hparts _ _ _ (sorted_keys_NoDup _)
                  Hks Hrun) as [[m ->] _]. by exists m.
  - intros base' Hrun.
    destruct (merge_loop_ok new_values Hparts _ _ _ (sorted_keys_NoDup _)
                Hks Hrun) as [Hin _].
    destruct (Hin k n Hk Hn) as [-> _]. by rewrite Hb.
  - intros Hfree.
    match goal with |- exists b, ?run = _ => destruct run as [base'|e] eqn:Hrun end;
      [by eexists|].
    destruct (merge_loop_err new_values Hparts _ _ _ (sorted_keys_NoDup _)
                Hks Hrun) as [_ (k' & n' & b' & _ & Hn' & Hb' & Hc)].
    destruct (Hfree k' b' n' Hn' Hb') as [H|H];
      destruct b', n'; done.
Qed.

Lemma values_flatten_merge_rule_witness :
  _values_flatten (<["AB" := (Some ["ab"], VList [VStr "old"])]> ∅)
                  [("ab", Leaf (VList [VStr "new"]))]
  = Ok (<["AB" := (Some ["ab"], VList [VStr "new"; VStr "old"])]> ∅)
  /\ getitem (<["AB" := (Some ["ab"], VList [VStr "new"; VStr "old"])]> ∅
              : flatmap value) "AB"
     = Some (VList [VStr "new"; VStr "old"]).
Proof.
  assert (Hrun : _values_flatten
                   (<["AB" := (Some ["ab"], VList [VStr "old"])]> ∅)
                   [("ab", Leaf (VList [VStr "new"]))]
                 = Ok (<["AB" := (Some ["ab"], VList [VStr "new"; VStr "old"])]> ∅))
    by (vm_compute; reflexivity).
  split; [exact Hrun|].
  exact (proj1 (proj2 (values_flatten_merge_rule
           (<["AB" := (Some ["ab"], VList [VStr "old"])]> ∅)
           [("ab", Leaf (VList [VStr "new"]))]
           (<["AB" := (Some ["ab"], VList [VStr "new"])]> ∅)
           "AB" (VList [VStr "old"]) (VList [VStr "new"])
           eq_refl eq_refl eq_refl)) _ Hrun).
Defined.

(** C1 as stated fails where the existing value is [None]: the incoming
    list is stored, the key is not cleared. *)
Lemma merge_into_none_keeps_incoming :
  let base : flatmap value := <["AB" := (Some ["ab"], VNone)]> ∅ in
  getitem base "AB" = Some VNone
  /\ exists base',
       _values_flatten base [("ab", Leaf (VList [VStr "x"]))] = Ok base'
       /\ getitem base' "AB" = Some (VList [VStr "x"])
       /\ getitem base' "AB" <> Some VNone.
Proof.
  split; [reflexivity|]. eexists. split; [vm_compute; reflexivity|].
  split; [reflexivity|discriminate].
Qed.




(** ** Required declarations *)

(** The scalar path makes the check: a [Required] declaration whose
    parser is neither [list] nor [dict], and whose key is absent from
    the raw values, fails with the assertion that names the dotted
    key. *)
Lemma required_scalar_missing (st : pystate) (raw : flatmap value)
    (fuel : nat) (key : _Key) (p : callable) (doc : string) :
  _raw_values st = Some raw ->
  getitem raw (flat key) = None ->
  ident p = other_callable ->
  let decl := _Declaration_init (Leaf (Required p doc)) in
  _resolver decl fuel st key decl
    = Some (Err (AssertionError
                   [Lit (join "." (parts key));
                    Lit ": config value missing and is required"])).
Proof.
  intros Hraw Hk Hp decl.
  rewrite (resolver_scalar st p decl eq_refl Hp).
  unfold _resolve_value. by rewrite Hraw, Hk.
Qed.

Lemma required_scalar_missing_witness :
  _resolver (_Declaration_init (Leaf (Required py_str "needed")))
    0 (set_raw_values (Some raw_items) initial_state)
    (_Key_new ["pkg"; "mod"; "needed"])
    (_Declaration_init (Leaf (Required py_str "needed")))
  = Some (Err (AssertionError
                 [Lit "pkg.mod.needed";
                  Lit ": config value missing and is required"])).
Proof.
  exact (required_scalar_missing
           (set_raw_values (Some raw_items) initial_state) raw_items 0
           (_Key_new ["pkg"; "mod"; "needed"]) py_str "needed"
           eq_refl eq_refl eq_refl).
Defined.

(** [Required(dict, ...)]: with the key absent from every source the
    resolver returns an empty mapping and raises nothing. *)
Lemma required_dict_missing_resolves :
  let st := set_raw_values (Some raw_items) initial_state in
  let key := _Key_new ["pkg"; "mod"; "opts"] in
  let decl := _Declaration_init (Leaf (Required py_dict "options")) in
  required decl = true
  /\ getitem raw_items (flat key) = None
  /\ _resolver decl 0 st key decl = Some (Ok (VMap [])).
Proof. vm_compute. repeat split; reflexivity. Qed.

(** For [Required(list, ...)] the assertion is reached, but its message
    refers to the unbound name [k]: the failure is a [NameError] that
    does not name the key. *)
Lemma required_list_missing_raises_NameError (st : pystate)
    (raw : flatmap value) (fuel : nat) (key : _Key) (p : callable)
    (doc : string) :
  _raw_values st = Some raw ->
  getitem raw (flat key) = None ->
  ident p = builtin_list ->
  let decl := _Declaration_init (Leaf (Required p doc)) in
  _resolver decl fuel st key decl = Some (Err (NameError "k")).
Proof.
  intros Hraw Hk Hp decl.
  rewrite (resolver_list st p decl eq_refl Hp).
  unfold _resolve_list. simpl. by rewrite Hraw, Hk.
Qed.

(** C6. The code misses the claim on two of its three paths. With the
    key absent from every source, [Required(list, ...)] fails with a
    [NameError], as the message of its assertion refers to a name that
    is not bound, and [Required(dict, ...)] makes no check at all and
    resolves to an empty mapping. Only a scalar declaration raises the
    assertion that names the dotted key. *)
Theorem required_list_and_dict_missing :
  let st := set_raw_values (Some raw_items) initial_state in
  let key := _Key_new ["pkg"; "mod"; "needed"] in
  let as_list := _Declaration_init (Leaf (Required py_list "needed")) in
  let as_dict := _Declaration_init (Leaf (Required py_dict "needed")) in
  let as_str := _Declaration_init (Leaf (Required py_str "needed")) in
  getitem raw_items (flat key) = None
  /\ required as_list = true /\ required as_dict = true
  /\ _resolver as_list 0 st key as_list = Some (Err (NameError "k"))
  /\ _resolver as_dict 0 st key as_dict = Some (Ok (VMap []))
  /\ _resolver as_str 0 st key as_str
     = Some (Err (AssertionError
                    [Lit "pkg.mod.needed";
                     Lit ": config value missing and is required"])).
Proof. vm_compute. repeat split; reflexivity. Qed.

(** ** The environment *)

Lemma alist_get_set_eq {A} (k : string) (v : A) (d : list (string * A)) :
  alist_get (alist_set k v d) k = Some v.
Proof.
  induction d as [|[k' v'] d IH]; simpl.
  - by rewrite String.eqb_refl.
  - destruct (String.eqb k' k) eqn:E; simpl; by rewrite E.
Qed.

Lemma alist_get_set_ne {A} (k k0 : string) (v : A) (d : list (string * A)) :
  k <> k0 -> alist_get (alist_set k v d) k0 = alist_get d k0.
Proof.
  intros Hne. induction d as [|[k' v'] d IH]; simpl.
  - by apply String.eqb_neq in Hne as ->.
  - destruct (String.eqb k' k) eqn:E; simpl.
    + apply String.eqb_eq in E as ->. by apply String.eqb_neq in Hne as ->.
    + by rewrite IH.
Qed.

Lemma alist_get_elem {A} (k : string) (v : A) (d : list (string * A)) :
  alist_get d k = Some v -> (k, v) ∈ d.
Proof.
  induction d as [|[k' v'] d IH]; simpl; [done|].
  destruct (String.eqb k' k) eqn:E.
  - apply String.eqb_eq in E as ->. intros [= ->]. apply list_elem_of_here.
  - intros H. by apply list_elem_of_further, IH.
Qed.

Lemma clean_other (name : string) (env : list (string * string)) :
  forall acc, name ∉ env.*1 ->
              alist_get (foldl clean_step acc env) name = alist_get acc name.
Proof.
  induction env as [|[k v] env IH]; intros acc Hout; [done|].
  apply not_elem_of_cons in Hout as [Hne Hout]. simpl in Hne.
  cbn [foldl]. rewrite IH by done. unfold clean_step.
  destruct (KEY_RE_search k); [|done]. by apply alist_get_set_ne.
Qed.

Lemma clean_empty_value (name : string) (env : list (string * string)) :
  forall acc,
    NoDup env.*1 -> (name, "") ∈ env -> KEY_RE_search name = true ->
    alist_get (foldl clean_step acc env) name = Some VNone.
Proof.
  induction env as [|[k v] env IH]; intros acc Hnd Hin Hre.
  - by apply elem_of_nil in Hin.
  - simpl in Hnd. apply NoDup_cons in Hnd as [Hk Hnd]. cbn [foldl].
    apply elem_of_cons in Hin as [[= <- <-]|Hin].
    + rewrite clean_other by done. unfold clean_step. rewrite Hre. simpl.
      apply alist_get_set_eq.
    + by apply IH.
Qed.

(** A name that matches [KEY_RE] holds no dot: it is a single segment. *)
Lemma chomp_nl_empty (s : string) :
  chomp_nl s = "" -> s = "" \/ s = String "010" "".
Proof.
  destruct s as [|c [|c' s']]; simpl; [by left| |done].
  destruct (Ascii.eqb c "010") eqn:E; [|done].
  apply Ascii.eqb_eq in E as ->. by right.
Qed.

Lemma key_rest_single_segment (s : string) :
  key_rest (chomp_nl s) = true -> split "." s = [s].
Proof.
  induction s as [|c s IH]; [done|].
  destruct s as [|c' s'].
  - simpl. destruct (Ascii.eqb c "010"); [done|]. simpl. intros Hc.
    destruct (Ascii.eqb c ".") eqn:E; [|done].
    apply Ascii.eqb_eq in E as ->. done.
  - change (chomp_nl (String c (String c' s')))
      with (String c (chomp_nl (String c' s'))).
    destruct (chomp_nl (String c' s')) as [|c1 s1] eqn:Hch.
    + apply chomp_nl_empty in Hch as [Hch|Hch]; [done|]. rewrite Hch.
      cbn [key_rest]. intros Hc.
      destruct (Ascii.eqb c ".") eqn:E.
      { apply Ascii.eqb_eq in E as ->. done. }
      simpl. by rewrite E.
    + cbn [key_rest]. intros Hc. apply andb_prop in Hc as [Hw Hr].
      change (split "." (String c (String c' s')))
        with (if Ascii.eqb c "." then "" :: split "." (String c' s')
              else match split "." (String c' s') with
                   | [] => [String c ""]
                   | p :: ps => String c p :: ps
                   end).
      rewrite (IH Hr).
      destruct (Ascii.eqb c ".") eqn:E; [|done].
      apply Ascii.eqb_eq in E as ->. done.
Qed.

Lemma KEY_RE_single_segment (s : string) :
  KEY_RE_search s = true -> split "." s = [s].
Proof.
  unfold KEY_RE_search. destruct s as [|c [|c' s']]; [done| |].
  - simpl. destruct (Ascii.eqb c "010"); [done|]. simpl.
    by rewrite andb_false_r.
  - change (chomp_nl (String c (String c' s')))
      with (String c (chomp_nl (String c' s'))).
    intros H. apply andb_prop in H as [Hl Hr].
    change (split "." (String c (String c' s')))
      with (if Ascii.eqb c "." then "" :: split "." (String c' s')
            else match split "." (String c' s') with
                 | [] => [String c ""]
                 | p :: ps => String c p :: ps
                 end).
    rewrite (key_rest_single_segment _ Hr).
    destruct (Ascii.eqb c ".") eqn:E; [|done].
    apply Ascii.eqb_eq in E as ->. done.
Qed.

Lemma leaves_as_source (d : list (string * value)) :
  leaves [] (Node (as_source d)) = (fun kv => (split "." kv.1, kv.2)) <$> d.
Proof.
  induction d as [|[k v] d IH]; [done|].
  change (as_source ((k, v) :: d)) with ((k, Leaf v) :: as_source d).
  rewrite leaves_cons, IH. done.
Qed.

Lemma clean_environ_keys (env : list (string * string)) :
  forall acc k v,
    (forall k v, (k, v) ∈ acc -> KEY_RE_search k = true) ->
    (k, v) ∈ foldl clean_step acc env -> KEY_RE_search k = true.
Proof.
  induction env as [|[k0 v0] env IH]; intros acc k v Hacc Hin.
  - by apply (Hacc k v).
  - cbn [foldl] in Hin. apply (IH _ k v) in Hin; [done|].
    intros k1 v1 H1. unfold clean_step in H1.
    destruct (KEY_RE_search k0) eqn:E; [|by apply (Hacc k1 v1)].
    clear -H1 Hacc E. induction acc as [|[k' v'] acc IHacc]; simpl in H1.
    + by apply list_elem_of_singleton in H1 as [= -> _].
    + destruct (String.eqb k' k0) eqn:E'.
      * apply elem_of_cons in H1 as [[= -> ->]|H1].
        -- by apply String.eqb_eq in E' as ->.
        -- apply (Hacc k1 v1). by apply list_elem_of_further.
      * apply elem_of_cons in H1 as [[= -> ->]|H1].
        -- apply (Hacc k' v'). apply list_elem_of_here.
        -- apply IHacc; [|done]. intros k2 v2 H2.
           apply (Hacc k2 v2). by apply list_elem_of_further.
Qed.

(** ** Interpolation *)

Lemma result_bind_ok_r (r : result string) :
  (out ← r; Ok ("" +:+ out)) = r.
Proof. by destruct r. Qed.

Lemma append_nil_l (r : string) : "" +:+ r = r.
Proof. reflexivity. Qed.

Lemma append_cons (c : ascii) (s r : string) :
  String c s +:+ r = String c (s +:+ r).
Proof. reflexivity. Qed.

Lemma append_nil_r (s : string) : s +:+ "" = s.
Proof. induction s as [|c s IH]; [done|]. by rewrite append_cons, IH. Qed.

Lemma append_assoc (s t u : string) : s +:+ (t +:+ u) = (s +:+ t) +:+ u.
Proof. induction s as [|c s IH]; [done|]. by rewrite !append_cons, IH. Qed.

(** One step of the scan, in literal text and inside a field. *)
Lemma format_scan_literal (kwargs : flatmap value) (c : ascii) (s' : string) :
  format_scan kwargs (String c s') None =
    if Ascii.eqb c "{" then
      match s' with
      | EmptyString =>
          Err (ValueError "Single '{' encountered in format string")
      | String c' s'' =>
          if Ascii.eqb c' "{" then
            out ← format_scan kwargs s'' None; Ok (String "{" out)
          else format_scan kwargs s' (Some "")
      end
    else if Ascii.eqb c "}" then
      match s' with
      | String c' s'' =>
          if Ascii.eqb c' "}" then
            out ← format_scan kwargs s'' None; Ok (String "}" out)
          else Err (ValueError "Single '}' encountered in format string")
      | EmptyString =>
          Err (ValueError "Single '}' encountered in format string")
      end
    else out ← format_scan kwargs s' None; Ok (String c out).
Proof. reflexivity. Qed.

Lemma format_scan_in_field (kwargs : flatmap value) (c : ascii) (s' : string)
    (name : string) :
  format_scan kwargs (String c s') (Some name) =
    if Ascii.eqb c "}" then
      v ← format_field kwargs name;
      out ← format_scan kwargs s' None;
      Ok (v +:+ out)
    else if field_special c then
      Err (Unmodelled "replacement field beyond a plain name")
    else format_scan kwargs s' (Some (name +:+ String c "")).
Proof. reflexivity. Qed.

(** A scan that ends well has consumed its text in literal mode: what
    follows is scanned from there. *)
Lemma format_scan_app (kwargs : flatmap value) (n : nat) :
  forall pre field out rest,
    String.length pre <= n ->
    format_scan kwargs pre field = Ok out ->
    format_scan kwargs (pre +:+ rest) field
      = (out' ← format_scan kwargs rest None; Ok (out +:+ out')).
Proof.
  induction n as [|n IH]; intros pre field out rest Hlen Hpre.
  - destruct pre; [|simpl in Hlen; lia]. destruct field; [done|].
    injection Hpre as <-. rewrite append_nil_l.
    destruct (format_scan kwargs rest None); reflexivity.
  - destruct pre as [|c s'].
    { destruct field; [done|]. injection Hpre as <-. rewrite append_nil_l.
      destruct (format_scan kwargs rest None); reflexivity. }
    simpl in Hlen. rewrite append_cons. destruct field as [name|].
    + rewrite format_scan_in_field in Hpre |- *.
      destruct (Ascii.eqb c "}").
      * destruct (format_field kwargs name) as [v|]; [|done].
        destruct (format_scan kwargs s' None) as [o|] eqn:Hs; [|done].
        injection Hpre as <-.
        rewrite (IH s' None o rest) by (done || lia).
        destruct (format_scan kwargs rest None) as [o'|]; [|done].
        change (Ok (v +:+ (o +:+ o')) = Ok ((v +:+ o) +:+ o') :> result string).
        by rewrite append_assoc.
      * destruct (field_special c); [done|].
        apply IH; [lia|done].
    + rewrite format_scan_literal in Hpre |- *.
      destruct (Ascii.eqb c "{").
      * destruct s' as [|c' s'']; [done|]. rewrite append_cons.
        cbn [String.length] in Hlen.
        destruct (Ascii.eqb c' "{").
        -- destruct (format_scan kwargs s'' None) as [o|] eqn:Hs; [|done].
           injection Hpre as <-.
           rewrite (IH s'' None o rest) by (done || lia).
           destruct (format_scan kwargs rest None); reflexivity.
        -- rewrite <- append_cons.
           apply (IH (String c' s'') (Some "") out rest); [simpl; lia|done].
      * destruct (Ascii.eqb c "}").
        -- destruct s' as [|c' s'']; [done|]. rewrite append_cons.
           cbn [String.length] in Hlen.
           destruct (Ascii.eqb c' "}"); [|done].
           destruct (format_scan kwargs s'' None) as [o|] eqn:Hs; [|done].
           injection Hpre as <-.
           rewrite (IH s'' None o rest) by (done || lia).
           destruct (format_scan kwargs rest None); reflexivity.
        -- destruct (format_scan kwargs s' None) as [o|] eqn:Hs; [|done].
           injection Hpre as <-.
           rewrite (IH s' None o rest) by (done || lia).
           destruct (format_scan kwargs rest None); reflexivity.
Qed.

(** A plain name up to its closing brace names the argument. *)
Lemma format_scan_field (kwargs : flatmap value) (name : string) :
  forall acc post,
    plain_name name = true ->
    format_scan kwargs (name +:+ String "}" post) (Some acc)
      = (v ← format_field kwargs (acc +:+ name);
         out ← format_scan kwargs post None;
         Ok (v +:+ out)).
Proof.
  induction name as [|c name IH]; intros acc post Hplain.
  - rewrite append_nil_l, format_scan_in_field. by rewrite append_nil_r.
  - simpl in Hplain. apply andb_prop in Hplain as [Hc Hplain].
    apply andb_prop in Hc as [Hb Hs].
    apply negb_true_iff in Hb, Hs.
    rewrite append_cons, format_scan_in_field, Hb, Hs.
    rewrite IH by done. by rewrite <- append_assoc.
Qed.

(** A placeholder that names a [Verbatim], after a part that is
    substituted without error, stops the substitution of the whole
    text. *)
Lemma format_verbatim_field (kwargs : flatmap value)
    (pre name post out t : string) :
  format_scan kwargs pre None = Ok out ->
  plain_name name = true ->
  all_digits name = false ->
  getitem kwargs name = Some (VVerbatim t) ->
  str_format (pre +:+ String "{" (name +:+ String "}" post)) (Some kwargs)
  = Err (AssertionError
           [Lit t; Lit ": you cannot refer to this formatted value"]).
Proof.
  intros Hpre Hplain Hdig Hv. unfold str_format.
  rewrite (format_scan_app kwargs _ pre None out _ (le_n _) Hpre).
  rewrite format_scan_literal. cbn [Ascii.eqb Bool.eqb].
  destruct name as [|c name']; [done|].
  rewrite append_cons.
  assert (Hc : Ascii.eqb c "{" = false).
  { simpl in Hplain. apply andb_prop in Hplain as [Hc _].
    apply andb_prop in Hc as [_ Hc]. apply negb_true_iff in Hc.
    unfold field_special in Hc. by destruct (Ascii.eqb c "{"). }
  rewrite Hc, <- append_cons, format_scan_field by done.
  rewrite append_nil_l. unfold format_field. rewrite Hdig, Hv. done.
Qed.

(** *** Termination of the interpolation loop *)


Section Bounded.
Variables (parsed : option (flatmap value)) (X : gset string).
Hypothesis closed :
  forall t t', t ∈ X -> str_format t parsed = Ok t' -> t' ∈ X.


End Bounded.

Lemma iterate_format_succ (parsed : option (flatmap value)) (n : nat)
    (s s' : string) :
  str_format s parsed = Ok s' ->
  iterate_format (S n) parsed s = iterate_format n parsed s'.
Proof. intros H. simpl. by rewrite H. Qed.






Section Growing.
Variable kwargs : flatmap value.
Hypothesis HAB : getitem kwargs "AB" = Some (VStr "{AB}x").


End Growing.



(** *** A reference to a [Verbatim] *)

(** The loop raises the error of the substitution it reaches after [n]
    turns on strings not seen before. *)
Lemma interpolate_raises_at (parsed : option (flatmap value)) (e : exn)
    (n : nat) :
  forall fuel seen s0 sn,
    iterate_format n parsed s0 = Ok sn ->
    str_format sn parsed = Err e ->
    (forall i si, i <= n -> iterate_format i parsed s0 = Ok si ->
                  si ∉ seen) ->
    (forall i j si, i < j -> j <= n -> iterate_format i parsed s0 = Ok si ->
                    iterate_format j parsed s0 <> Ok si) ->
    interpolate (S n + fuel) parsed seen (VStr s0) = Some (Err e).
Proof.
  induction n as [|n IH]; intros fuel seen s0 sn Hn Herr Hseen Hdist.
  - injection Hn as ->. change (1 + fuel) with (S fuel). cbn [interpolate].
    rewrite bool_decide_eq_false_2 by (by apply (Hseen 0)).
    by rewrite Herr.
  - cbn [iterate_format] in Hn.
    destruct (str_format s0 parsed) as [s1|] eqn:H0; [|done].
    cbn [mbind result_bind] in Hn.
    change (S (S n) + fuel) with (S (S n + fuel)). cbn [interpolate].
    rewrite bool_decide_eq_false_2 by (apply (Hseen 0); [lia|done]).
    rewrite H0. apply (IH fuel _ s1 sn Hn Herr).
    + intros i si Hi Hit. apply not_elem_of_union. split.
      * intros ->%elem_of_singleton.
        apply (Hdist 0 (S i) s0); [lia|lia|done|].
        by rewrite (iterate_format_succ _ _ _ _ H0).
      * apply (Hseen (S i)); [lia|].
        by rewrite (iterate_format_succ _ _ _ _ H0).
    + intros i j si Hij Hj Hit.
      rewrite <- (iterate_format_succ _ _ _ _ H0).
      apply (Hdist (S i) (S j)); [lia|lia|].
      by rewrite (iterate_format_succ _ _ _ _ H0).
Qed.

(** C10, as the code has it. A scalar value, taken from the raw values
    or from the default of the declaration, whose text reaches after [n]
    substitutions, on strings that differ from one another, a
    placeholder that is a plain name and names a parsed value that is a
    [Verbatim], after a part that is substituted without error, fails to
    resolve: the substitution raises the [AssertionError] of
    [Verbatim.__format__] and nothing is inserted. *)
Theorem verbatim_reference_raises (st : pystate) (raw kwargs : flatmap value)
    (fuel n : nat) (key : _Key) (decl : _Declaration)
    (s0 pre name post out t : string) :
  _raw_values st = Some raw ->
  _parsed_values st = Some kwargs ->
  getitem raw (flat key) = Some (VStr s0)
  \/ (getitem raw (flat key) = None /\ required decl = false
      /\ default decl = VStr s0) ->
  iterate_format n (Some kwargs) s0
    = Ok (pre +:+ String "{" (name +:+ String "}" post)) ->
  (forall i j si, i < j -> j <= n ->
     iterate_format i (Some kwargs) s0 = Ok si ->
     iterate_format j (Some kwargs) s0 <> Ok si) ->
  format_scan kwargs pre None = Ok out ->
  plain_name name = true ->
  all_digits name = false ->
  getitem kwargs name = Some (VVerbatim t) ->
  _resolve_value (S n + fuel) st key decl
    = Some (Err (AssertionError
                   [Lit t; Lit ": you cannot refer to this formatted value"])).
Proof.
  intros Hraw Hpv Hstart Hn Hdist Hpre Hplain Hdig Hv.
  pose proof (format_verbatim_field kwargs pre name post out t
                Hpre Hplain Hdig Hv) as Herr.
  pose proof (interpolate_raises_at (Some kwargs) _ n fuel ∅ s0 _ Hn Herr
                ltac:(intros; set_solver) Hdist) as Hloop.
  unfold _resolve_value. rewrite Hraw, Hpv.
  destruct Hstart as [Hget|(Hget & Hreq & Hdef)].
  - by rewrite Hget, Hloop.
  - by rewrite Hget, Hreq, Hdef, Hloop.
Qed.

(** The placeholder is not in the configured text but in a parsed value
    the text refers to: the second substitution meets it. *)
Lemma verbatim_reference_raises_witness :
  _resolve_value 2
    (set_parsed_values (Some parsed_relay)
       (set_raw_values (Some raw_relay) initial_state))
    (_Key_new ["app"; "greeting"])
    (_Declaration_init (Leaf (Tuple3 VNone py_str "")))
  = Some (Err (AssertionError
                 [Lit "Hello {user}";
                  Lit ": you cannot refer to this formatted value"])).
Proof.
  apply (verbatim_reference_raises
           (set_parsed_values (Some parsed_relay)
              (set_raw_values (Some raw_relay) initial_state))
           raw_relay parsed_relay 0 1 (_Key_new ["app"; "greeting"])
           (_Declaration_init (Leaf (Tuple3 VNone py_str "")))
           "{APP_MSG}" "say " "APP_LOGIN" "!" "say " "Hello {user}").
  - reflexivity.
  - reflexivity.
  - left. reflexivity.
  - vm_compute. reflexivity.
  - intros i j si Hij Hj Hi.
    assert (i = 0) as -> by lia. assert (j = 1) as -> by lia.
    vm_compute in Hi. injection Hi as <-. vm_compute. discriminate.
  - reflexivity.
  - reflexivity.
  - reflexivity.
  - reflexivity.
Defined.

(** C10 as stated fails: the text of a [Verbatim] is spliced into
    another value once a parser has returned it as a plain string. The
    base configuration sets [a] to [Verbatim("secret")] and [b] to a
    text that refers to [a]; both are declared with the parser [str],
    and [b] resolves to the text of [a] followed by the rest. *)
Lemma verbatim_text_spliced_after_str :
  exists st',
    init 5 verbatim_package (caller_module "pkg.mod")
      [("a", Leaf (Tuple3 VNone py_str ""));
       ("b", Leaf (Tuple3 VNone py_str ""))] entry_state
    = Some (Ok (Some (VMap [("a", VStr "secret"); ("b", VStr "secret!")])),
            st')
    /\ (exists raw, _raw_values st' = Some raw
                    /\ getitem raw "PKG_MOD_A" = Some (VVerbatim "secret")).
Proof.
  set (run := init 5 verbatim_package (caller_module "pkg.mod")
                [("a", Leaf (Tuple3 VNone py_str ""));
                 ("b", Leaf (Tuple3 VNone py_str ""))] entry_state).
  exists (match run with Some (_, st') => st' | None => initial_state end).
  split; [vm_compute; reflexivity|].
  exists (from_option id ∅
            (_raw_values
               (match run with Some (_, st') => st' | None => initial_state end))).
  split; vm_compute; reflexivity.
Qed.

(** ** Fuel *)








(** ** Registration *)



(** * Further properties *)

(** ** Keys *)

Lemma upper_ascii_idemp (c : ascii) : upper_ascii (upper_ascii c) = upper_ascii c.
Proof.
  unfold upper_ascii. destruct (is_lower c) eqn:E; [|by rewrite E].
  destruct c as [[] [] [] [] [] [] [] []]; vm_compute in E; try done;
    vm_compute; reflexivity.
Qed.

Lemma upper_idemp (s : string) : upper (upper s) = upper s.
Proof.
  induction s as [|c s IH]; [done|]. simpl. by rewrite upper_ascii_idemp, IH.
Qed.

(** An environment variable named by the flat key of a parameter is
    stored under that very key: the key of a single segment that is
    already a flat key is the flat key itself. *)
Lemma flat_key_names_itself (ps : list string) :
  flat (_Key_new [flat (_Key_new ps)]) = flat (_Key_new ps).
Proof. simpl. apply upper_idemp. Qed.

Lemma split_cons_nonempty (sep : ascii) (s : string) : split sep s <> [].
Proof.
  destruct s as [|c s]; simpl; [done|].
  destruct (Ascii.eqb c sep); [done|]. by destruct (split sep s).
Qed.

Lemma join_split (sep : ascii) (s : string) :
  join (String sep "") (split sep s) = s.
Proof.
  induction s as [|c s IH]; [done|]. simpl.
  destruct (Ascii.eqb c sep) eqn:E.
  - apply Ascii.eqb_eq in E as ->.
    pose proof (split_cons_nonempty sep s) as Hne.
    destruct (split sep s) as [|p ps] eqn:Hs; [done|].
    change (join (String sep "") ("" :: p :: ps))
      with ("" +:+ String sep "" +:+ join (String sep "") (p :: ps)).
    by rewrite IH.
  - pose proof (split_cons_nonempty sep s) as Hne.
    destruct (split sep s) as [|p ps] eqn:Hs; [done|].
    destruct ps as [|p' ps].
    + simpl in *. by rewrite IH.
    + change (join (String sep "") (String c p :: p' :: ps))
        with (String c p +:+ String sep "" +:+ join (String sep "") (p' :: ps)).
      change (join (String sep "") (p :: p' :: ps))
        with (p +:+ String sep "" +:+ join (String sep "") (p' :: ps)) in IH.
      by rewrite append_cons, IH.
Qed.

(** The message form of a top-level key is the key as it was written:
    splitting on dots and joining with dots gives the text back. *)
Lemma key_msg_is_written_key (k : string) :
  msg (_Key_new (split "." k)) = k.
Proof. unfold msg. simpl. apply (join_split "."). Qed.

(** ** Flattening *)

Lemma flatten_keys_entry_is_leaf {A} (values : list (string * nested A))
    (res : flatmap A) (k : string) (p : option (list string)) (a : A) :
  _flatten_keys [] values ∅ = Ok res ->
  res !! k = Some (p, a) ->
  exists ps, p = Some ps /\ k = flat_of ps
             /\ (ps, a) ∈ leaves [] (Node values).
Proof.
  intros Hf Hk.
  pose proof (flatten_items_extends _ _ _ _ Hf) as [leaf other _ _].
  destruct (decide (k ∈ (fun e => flat_of e.1) <$> leaves [] (Node values)))
    as [Hin|Hout].
  - apply list_elem_of_fmap in Hin as [[ps a'] [Heq Hin]]. simpl in Heq.
    subst k. rewrite (leaf ps a' Hin) in Hk. injection Hk as <- <-.
    by exists ps.
  - rewrite other in Hk; [by rewrite lookup_empty in Hk|].
    intros ps a' Hin <-. apply Hout, list_elem_of_fmap. by exists (ps, a').
Qed.

(** What a successful flattening stores: exactly the leaves of the
    source, each under the flat key of its path and with the parts of
    that path. *)
Theorem flatten_keys_stores_leaves {A} (values : list (string * nested A))
    (res : flatmap A) (k : string) (p : option (list string)) (a : A) :
  _flatten_keys [] values ∅ = Ok res ->
  res !! k = Some (p, a)
  <-> exists ps, p = Some ps /\ k = flat_of ps
                 /\ (ps, a) ∈ leaves [] (Node values).
Proof.
  intros Hf. split; [by apply flatten_keys_entry_is_leaf|].
  pose proof (flatten_items_extends _ _ _ _ Hf) as [leaf _ _ _].
  intros (ps & -> & -> & Hin). by apply leaf.
Qed.

Lemma flatten_keys_stores_leaves_witness :
  _flatten_keys [] nested_source ∅ = Ok flat_nested_source
  /\ flat_nested_source !! "PKG_MOD_Y_Z"
     = Some (Some ["pkg"; "mod"; "y"; "z"], VInt 2).
Proof.
  assert (Hrun : _flatten_keys [] nested_source ∅ = Ok flat_nested_source)
    by (vm_compute; reflexivity).
  split; [exact Hrun|].
  apply (flatten_keys_stores_leaves nested_source flat_nested_source
           "PKG_MOD_Y_Z" (Some ["pkg"; "mod"; "y"; "z"]) (VInt 2) Hrun).
  exists ["pkg"; "mod"; "y"; "z"]. split; [done|]. split; [done|].
  change (leaves [] (Node nested_source))
    with [(["pkg"; "mod"; "x"], VInt 1); (["pkg"; "mod"; "y"; "z"], VInt 2)].
  apply list_elem_of_further, list_elem_of_here.
Defined.

(** Every key the walk of a successful flattening built matched the key
    pattern. *)
Lemma flatten_items_keys_valid {A} (v : nested A) :
  forall kp res res',
    flatten_items kp v res = Ok res' -> keys_valid kp v = true.
Proof.
  induction v as [a|d IH] using nested_induction; intros kp res res' Hf;
    [done|].
  revert res Hf. induction IH as [|[k0 v] d IHv _ IHd]; intros res Hf; [done|].
  rewrite flatten_items_cons in Hf. rewrite keys_valid_cons.
  cbv zeta in Hf. unfold flat_of.
  destruct (KEY_RE_search (flat (_Key_new (kp ++ split "." k0)))); [|done].
  cbn [negb] in Hf. destruct (contains res _); [done|].
  destruct v as [a|dv].
  - by rewrite (IHd _ Hf).
  - destruct (flatten_items (parts (_Key_new (kp ++ split "." k0)))
                (Node dv) res) as [res1|] eqn:Hv; [|done].
    pose proof (IHv _ _ _ Hv) as Hv'. cbn in Hv'.
    change (keys_valid (kp ++ split "." k0) (Node dv) = true) in Hv'.
    by rewrite Hv', (IHd _ Hf).
Qed.

Lemma keys_valid_leaves {A} (v : nested A) :
  forall kp ps a,
    keys_valid kp v = true -> (ps, a) ∈ leaves kp v ->
    KEY_RE_search (flat_of ps) = true.
Proof.
  induction v as [a|d IH] using nested_induction; intros kp ps a0 Hv Hin.
  - by apply elem_of_nil in Hin.
  - induction IH as [|[k0 v] d IHv _ IHd]; [by apply elem_of_nil in Hin|].
    rewrite keys_valid_cons in Hv. rewrite leaves_cons in Hin.
    apply andb_prop in Hv as [Hv Hd]. apply andb_prop in Hv as [Hk Hv].
    destruct v as [a|dv].
    + apply elem_of_cons in Hin as [[= -> ->]|Hin]; [done|by apply IHd].
    + apply elem_of_app in Hin as [Hin|Hin]; [|by apply IHd].
      by apply (IHv _ _ _ Hv Hin).
Qed.

(** Every key of a flattened source matches [KEY_RE]. *)
Theorem flatten_keys_match_KEY_RE {A} (values : list (string * nested A))
    (res : flatmap A) (k : string) :
  _flatten_keys [] values ∅ = Ok res ->
  is_Some (res !! k) ->
  KEY_RE_search k = true.
Proof.
  intros Hf [[p a] Hk].
  apply (flatten_keys_entry_is_leaf values res k p a Hf) in Hk
    as (ps & -> & -> & Hin).
  apply (keys_valid_leaves (Node values) [] ps a); [|done].
  by apply (flatten_items_keys_valid _ _ _ _ Hf).
Qed.

Lemma flatten_keys_match_KEY_RE_witness :
  KEY_RE_search "PKG_MOD_X" = true.
Proof.
  apply (flatten_keys_match_KEY_RE nested_source flat_nested_source "PKG_MOD_X").
  - vm_compute. reflexivity.
  - by eexists.
Defined.

Lemma split_app (sep : ascii) (a b : string) :
  split sep (a +:+ String sep b) = split sep a ++ split sep b.
Proof.
  induction a as [|c a IH].
  - rewrite append_nil_l. simpl. by rewrite Ascii.eqb_refl.
  - rewrite append_cons. simpl. rewrite IH.
    destruct (Ascii.eqb c sep); [done|].
    pose proof (split_cons_nonempty sep a) as Hne.
    by destruct (split sep a).
Qed.

Lemma flatten_items_app {A} (kp : list string)
    (d1 d2 : list (string * nested A)) :
  forall res,
    flatten_items kp (Node (d1 ++ d2)) res
    = flatten_items kp (Node d1) res ≫= flatten_items kp (Node d2).
Proof.
  induction d1 as [|[k0 v] d1 IH]; intros res; [done|].
  rewrite <- app_comm_cons, !flatten_items_cons. cbv zeta.
  destruct (negb _); [done|]. destruct (contains res _); [done|].
  destruct v as [a|dv]; [apply IH|].
  destruct (flatten_items _ (Node dv) res) as [res1|]; [|done].
  cbn [mbind result_bind]. apply IH.
Qed.

(** A dotted key is a nesting: wherever it stands among the items, an
    item [k1.k2] flattens like the item [k1] holding a dictionary with
    the item [k2], provided [k1] alone is a valid key and is not a key
    the items before it have stored: the two checks that only the nested
    form makes on [k1]. *)
Theorem dotted_key_is_nesting {A} (key_parts : list string)
    (before rest : list (string * nested A)) (k1 k2 : string) (v : nested A)
    (res : flatmap A) :
  KEY_RE_search (flat_of (key_parts ++ split "." k1)) = true ->
  (forall res1, _flatten_keys key_parts before res = Ok res1 ->
                contains res1 (flat_of (key_parts ++ split "." k1)) = false) ->
  _flatten_keys key_parts (before ++ (k1 +:+ String "." k2, v) :: rest) res
  = _flatten_keys key_parts (before ++ (k1, Node [(k2, v)]) :: rest) res.
Proof.
  intros Hk1 Hfresh. unfold _flatten_keys in *. rewrite !flatten_items_app.
  destruct (flatten_items key_parts (Node before) res) as [res1|]; [|done].
  specialize (Hfresh res1 eq_refl). cbn [mbind result_bind].
  rewrite !flatten_items_cons. cbv zeta.
  rewrite split_app. unfold flat_of in Hk1, Hfresh. rewrite Hk1, Hfresh.
  cbn [negb]. rewrite flatten_items_cons. cbv zeta. cbn [parts _Key_new].
  rewrite <- app_assoc.
  destruct (KEY_RE_search
              (flat (_Key_new (key_parts ++ split "." k1 ++ split "." k2))));
    [|done].
  cbn [negb].
  destruct (contains res1
              (flat (_Key_new (key_parts ++ split "." k1 ++ split "." k2))));
    [done|].
  destruct v as [a|dv]; [done|].
  cbn [parts _Key_new].
  by destruct (flatten_items (key_parts ++ split "." k1 ++ split "." k2)
                 (Node dv) res1).
Qed.

Lemma dotted_key_is_nesting_witness :
  _flatten_keys ["pkg"]
    ([("ab", Leaf (VInt 1))] ++ [("mod.x", Leaf (VInt 2))]) ∅
  = _flatten_keys ["pkg"]
      ([("ab", Leaf (VInt 1))] ++ [("mod", Node [("x", Leaf (VInt 2))])]) ∅.
Proof.
  apply (dotted_key_is_nesting ["pkg"] [("ab", Leaf (VInt 1))] [] "mod" "x"
           (Leaf (VInt 2)) ∅).
  - reflexivity.
  - intros res1 Hres1. vm_compute in Hres1. injection Hres1 as <-.
    reflexivity.
Defined.

(** ** Merging *)

Lemma setitem_keeps_parts {A} (k k' : string) (kp p : option (list string))
    (v a : A) (d : flatmap A) :
  d !! k = Some (p, a) -> exists a', setitem k' kp v d !! k = Some (p, a').
Proof.
  intros Hk. unfold setitem. destruct (decide (k' = k)) as [->|Hne].
  - rewrite Hk, lookup_insert_eq. by eexists.
  - destruct (d !! k') as [[p' a']|]; rewrite lookup_insert_ne by done;
      by eexists.
Qed.

Lemma merge_key_keeps_parts (base base1 : flatmap value) (k k1 : string)
    (kp p : option (list string)) (n b : value) :
  merge_key base k1 kp n = Ok base1 ->
  base !! k = Some (p, b) -> exists v, base1 !! k = Some (p, v).
Proof.
  unfold merge_key. intros Hm Hk.
  destruct (match getitem base k1 with Some _ => _ | None => _ end)
    as [n'|]; [|done].
  injection Hm as <-. by apply (setitem_keeps_parts _ _ _ _ _ b).
Qed.

Lemma merge_loop_keeps_parts (new_values : flatmap value) (ks : list string) :
  forall base base' k p b,
    for_each
      (fun base k =>
         match new_values !! k with
         | Some (kparts, n) => merge_key base k kparts n
         | None => Err (KeyError k)
         end) ks base = Ok base' ->
    base !! k = Some (p, b) -> exists v, base' !! k = Some (p, v).
Proof.
  induction ks as [|k1 ks IH]; intros base base' k p b Hrun Hk.
  - injection Hrun as <-. by eexists.
  - cbn [for_each] in Hrun.
    destruct (new_values !! k1) as [[kp n]|]; [|done].
    destruct (merge_key base k1 kp n) as [base1|] eqn:Hm; [|done].
    destruct (merge_key_keeps_parts _ _ _ _ _ _ _ _ Hm Hk) as [v Hv].
    by apply (IH base1 base' k p v).
Qed.

(** The key object of the first source that supplies a key stays in the
    raw values: a later source changes the value under the key, never
    the path segments kept with it. *)
Theorem values_flatten_keeps_key_parts (base base' : flatmap value)
    (new : list (string * nested value)) (k : string)
    (p : option (list string)) (b : value) :
  _values_flatten base new = Ok base' ->
  base !! k = Some (p, b) ->
  exists v, base' !! k = Some (p, v).
Proof.
  unfold _values_flatten. intros Hrun Hk.
  destruct (_flatten_keys [] new ∅) as [nv|]; [|done].
  by apply (merge_loop_keeps_parts nv _ _ _ _ _ _ Hrun Hk).
Qed.

Lemma values_flatten_keeps_key_parts_witness :
  exists v,
    (<["PKG_MOD_X" := (Some ["pkg"; "mod"; "x"], VStr "env")]> ∅
       : flatmap value) !! "PKG_MOD_X"
    = Some (Some ["pkg"; "mod"; "x"], v).
Proof.
  apply (values_flatten_keeps_key_parts
           (<["PKG_MOD_X" := (Some ["pkg"; "mod"; "x"], VStr "file")]> ∅)
           _ [("PKG_MOD_X", Leaf (VStr "env"))] "PKG_MOD_X"
           (Some ["pkg"; "mod"; "x"]) (VStr "file")).
  - vm_compute. reflexivity.
  - reflexivity.
Defined.

Lemma values_flatten_other_keys (base base' new_values : flatmap value)
    (new : list (string * nested value)) (k : string) :
  _flatten_keys [] new ∅ = Ok new_values ->
  _values_flatten base new = Ok base' ->
  getitem new_values k = None ->
  getitem base' k = getitem base k.
Proof.
  intros Hf Hrun Hnone.
  pose proof (flatten_keys_parts new new_values Hf) as Hparts.
  unfold _values_flatten in Hrun. rewrite Hf in Hrun. simpl in Hrun.
  destruct (merge_loop_ok new_values Hparts _ _ _ (sorted_keys_NoDup _)
              (fun k => proj1 (sorted_keys_elem new_values k)) Hrun)
    as [_ Hout].
  apply Hout. intros Hk. apply sorted_keys_elem in Hk as [x Hx].
  unfold getitem in Hnone. by rewrite Hx in Hnone.
Qed.

(** A merge leaves alone every key the source does not hold, and stores
    the value of the source under every key that is new to the base. *)
Theorem values_flatten_frame (base base' new_values : flatmap value)
    (new : list (string * nested value)) (k : string) :
  _flatten_keys [] new ∅ = Ok new_values ->
  _values_flatten base new = Ok base' ->
  (getitem new_values k = None -> getitem base' k = getitem base k)
  /\ (forall n, getitem new_values k = Some n -> getitem base k = None ->
                getitem base' k = Some n).
Proof.
  intros Hf Hrun.
  pose proof (flatten_keys_parts new new_values Hf) as Hparts.
  unfold _values_flatten in Hrun. rewrite Hf in Hrun. simpl in Hrun.
  destruct (merge_loop_ok new_values Hparts _ _ _ (sorted_keys_NoDup _)
              (fun k => proj1 (sorted_keys_elem new_values k)) Hrun)
    as [Hin Hout].
  split.
  - intros Hnone. apply Hout. intros Hk. apply sorted_keys_elem in Hk as [x Hx].
    unfold getitem in Hnone. by rewrite Hx in Hnone.
  - intros n Hn Hb. destruct (Hin k n) as [-> _]; [|done|by rewrite Hb].
    apply sorted_keys_elem. unfold getitem in Hn.
    destruct (new_values !! k); [by eexists|done].
Qed.

Lemma values_flatten_frame_witness :
  getitem (<["PKG_MOD_Y" := (Some ["pkg"; "mod"; "y"], VInt 2)]>
             (<["PKG_MOD_X" := (Some ["pkg"; "mod"; "x"], VInt 1)]> ∅)
           : flatmap value) "PKG_MOD_X"
  = getitem (<["PKG_MOD_X" := (Some ["pkg"; "mod"; "x"], VInt 1)]> ∅
             : flatmap value) "PKG_MOD_X".
Proof.
  assert (Hf : _flatten_keys [] [("pkg.mod.y", Leaf (VInt 2))] ∅
               = Ok (<["PKG_MOD_Y" := (Some ["pkg"; "mod"; "y"], VInt 2)]> ∅))
    by (vm_compute; reflexivity).
  assert (Hrun : _values_flatten
                   (<["PKG_MOD_X" := (Some ["pkg"; "mod"; "x"], VInt 1)]> ∅)
                   [("pkg.mod.y", Leaf (VInt 2))]
                 = Ok (<["PKG_MOD_Y" := (Some ["pkg"; "mod"; "y"], VInt 2)]>
                         (<["PKG_MOD_X" := (Some ["pkg"; "mod"; "x"], VInt 1)]> ∅)))
    by (vm_compute; reflexivity).
  exact (proj1 (values_flatten_frame _ _ _ _ "PKG_MOD_X" Hf Hrun) eq_refl).
Defined.

(** ** The load path *)

Section AppendLoop.
Let step (st : pystate) (p : string) : pystate :=
  if bool_decide (p ∈ deref (heap st) (_load_path st)) then st
  else set_heap (heap_append (_load_path st) p (heap st)) st.

(** The loop of [append_load_path]: the list object grows by the
    packages it did not hold, each once, and nothing else changes. *)
Lemma append_loop_spec (ps : list string) :
  forall st lp,
    heap st !! _load_path st = Some lp ->
    exists ext,
      foldl step st ps = set_heap (<[_load_path st := lp ++ ext]> (heap st)) st
      /\ (forall p, p ∈ ext <-> p ∈ ps /\ p ∉ lp)
      /\ NoDup ext.
Proof.
  induction ps as [|p ps IH]; intros st lp Hlp.
  - exists []. rewrite app_nil_r, list_insert_id by done.
    split; [by destruct st|]. split; [|constructor].
    intros p. split; [by intros ?%elem_of_nil|by intros [?%elem_of_nil _]].
  - cbn [foldl]. unfold step at 2. unfold deref. rewrite Hlp. simpl.
    case_bool_decide as Hin.
    + destruct (IH st lp Hlp) as (ext & Hrun & Hext & Hnd).
      exists ext. split; [done|]. split; [|done].
      intros q. rewrite Hext. split; [intros [? ?]; split; [by right|done]|].
      intros [Hq Hout]. split; [|done].
      apply elem_of_cons in Hq as [->|Hq]; done.
    + assert (Hlt : _load_path st < length (heap st))
        by (by apply lookup_lt_Some in Hlp).
      destruct (IH (set_heap (heap_append (_load_path st) p (heap st)) st)
                  (lp ++ [p])) as (ext & Hrun & Hext & Hnd).
      { unfold heap_append, deref. rewrite Hlp. simpl.
        by rewrite list_lookup_insert_eq. }
      exists (p :: ext). split; [|split].
      * rewrite Hrun. unfold heap_append, deref. rewrite Hlp. simpl.
        rewrite list_insert_insert_eq. by rewrite <- app_assoc.
      * intros q. rewrite elem_of_cons, Hext, elem_of_app, list_elem_of_singleton.
        split.
        -- intros [->|[Hq Hout]]; [split; [by left|done]|].
           split; [by right|]. intros ?. apply Hout. by left.
        -- intros [Hq Hout]. apply elem_of_cons in Hq as [->|Hq]; [by left|].
           destruct (decide (q = p)) as [->|Hne]; [by left|].
           right. split; [done|]. by intros [?|?].
      * apply NoDup_cons. split; [|done]. intros Hp. apply Hext in Hp as [_ Hp].
        apply Hp, elem_of_app. right. by apply list_elem_of_singleton.
Qed.
End AppendLoop.

Lemma append_load_path_state (arg : load_path_arg) (st : pystate)
    (lp : list string) :
  heap st !! _load_path st = Some lp ->
  exists ext,
    (append_load_path arg st).2
    = set_heap (<[_load_path st := lp ++ ext]> (heap st)) st
    /\ (forall p, p ∈ ext <-> p ∈ _load_path_parser (heap st) arg /\ p ∉ lp)
    /\ NoDup ext.
Proof.
  intros Hlp.
  destruct (append_loop_spec (_load_path_parser (heap st) arg) st lp Hlp)
    as (ext & Hrun & Hext & Hnd).
  exists ext. split; [|done].
  unfold append_load_path. rewrite Hrun. simpl.
  by rewrite bool_decide_eq_false_2 by (by intros H; apply H).
Qed.

(** [append_load_path] keeps the packages of the load path in place and
    appends, each once, exactly the packages of its argument that were
    missing; the other globals are left as they were. *)
Theorem append_load_path_extends (arg : load_path_arg) (st : pystate)
    (lp : list string) :
  heap st !! _load_path st = Some lp ->
  let st' := (append_load_path arg st).2 in
  exists ext,
    deref (heap st') (_load_path st') = lp ++ ext
    /\ (forall p, p ∈ ext <-> p ∈ _load_path_parser (heap st) arg /\ p ∉ lp)
    /\ NoDup ext
    /\ _load_path st' = _load_path st
    /\ _raw_values st' = _raw_values st
    /\ _parsed_values st' = _parsed_values st
    /\ cfg st' = cfg st.
Proof.
  intros Hlp st'.
  destruct (append_load_path_state arg st lp Hlp) as (ext & Hst & Hext & Hnd).
  exists ext. subst st'. rewrite Hst. simpl.
  split; [|done]. unfold deref.
  rewrite list_lookup_insert_eq; [done|]. by apply lookup_lt_Some in Hlp.
Qed.

Lemma append_load_path_extends_witness :
  exists ext,
    deref (heap (append_load_path (LpStr "a:pykern:b:a") initial_state).2)
          (_load_path (append_load_path (LpStr "a:pykern:b:a") initial_state).2)
    = ["pykern"] ++ ext
    /\ (forall p, p ∈ ext
                  <-> p ∈ _load_path_parser (heap initial_state)
                                             (LpStr "a:pykern:b:a")
                      /\ p ∉ ["pykern"])
    /\ NoDup ext
    /\ _load_path (append_load_path (LpStr "a:pykern:b:a") initial_state).2
       = _load_path initial_state
    /\ _raw_values (append_load_path (LpStr "a:pykern:b:a") initial_state).2
       = _raw_values initial_state
    /\ _parsed_values (append_load_path (LpStr "a:pykern:b:a") initial_state).2
       = _parsed_values initial_state
    /\ cfg (append_load_path (LpStr "a:pykern:b:a") initial_state).2
       = cfg initial_state.
Proof.
  exact (append_load_path_extends (LpStr "a:pykern:b:a") initial_state
           ["pykern"] eq_refl).
Defined.

Lemma append_loop_noop (ps : list string) (st : pystate) :
  (forall p, p ∈ ps -> p ∈ deref (heap st) (_load_path st)) ->
  foldl
    (fun st p =>
       if bool_decide (p ∈ deref (heap st) (_load_path st)) then st
       else set_heap (heap_append (_load_path st) p (heap st)) st)
    st ps = st.
Proof.
  induction ps as [|p ps IH]; intros Hall; [done|]. cbn [foldl].
  rewrite bool_decide_eq_true_2 by (apply Hall, list_elem_of_here).
  apply IH. intros q Hq. by apply Hall, list_elem_of_further.
Qed.

(** A second call with the same argument changes nothing. *)
Theorem append_load_path_idempotent (arg : load_path_arg) (st : pystate)
    (lp : list string) :
  heap st !! _load_path st = Some lp ->
  append_load_path arg (append_load_path arg st).2
  = (Ok (), (append_load_path arg st).2).
Proof.
  intros Hlp.
  destruct (append_load_path_state arg st lp Hlp) as (ext & Hst & Hext & Hnd).
  rewrite Hst. pose proof (lookup_lt_Some _ _ _ Hlp) as Hlt.
  unfold append_load_path at 1. rewrite append_loop_noop.
  - by rewrite bool_decide_eq_false_2 by (by intros H; apply H).
  - cbn [heap _load_path set_heap]. intros p Hp. unfold deref at 1.
    rewrite list_lookup_insert_eq by done. cbn [default].
    assert (Hp' : p ∈ _load_path_parser (heap st) arg \/ p ∈ lp ++ ext).
    { destruct arg as [|s|l]; [by left|by left|]. cbn [_load_path_parser] in *.
      unfold deref in *. destruct (decide (l = _load_path st)) as [->|Hne].
      - rewrite list_lookup_insert_eq in Hp by done. by right.
      - rewrite list_lookup_insert_ne in Hp by done. by left. }
    destruct Hp' as [Hp'|Hp']; [|done].
    apply elem_of_app. destruct (decide (p ∈ lp)); [by left|].
    right. by apply Hext.
Qed.

Lemma append_load_path_idempotent_witness :
  append_load_path (LpStr "a:b") (append_load_path (LpStr "a:b") initial_state).2
  = (Ok (), (append_load_path (LpStr "a:b") initial_state).2).
Proof.
  exact (append_load_path_idempotent (LpStr "a:b") initial_state ["pykern"]
           eq_refl).
Defined.

(** ** The environment *)

Lemma clean_from_acc (name : string) (env : list (string * string)) :
  forall acc,
    NoDup env.*1 ->
    alist_get (foldl clean_step acc env) name
    = match (if KEY_RE_search name then alist_get env name else None) with
      | Some v => Some (if (0 <? String.length v)%nat then VStr v else VNone)
      | None => alist_get acc name
      end.
Proof.
  induction env as [|[k v] env IH]; intros acc Hnd.
  - simpl. by destruct (KEY_RE_search name).
  - simpl in Hnd. apply NoDup_cons in Hnd as [Hk Hnd]. cbn [foldl alist_get].
    destruct (String.eqb k name) eqn:E.
    + apply String.eqb_eq in E as ->. rewrite clean_other by done.
      unfold clean_step. destruct (KEY_RE_search name); [|done].
      apply alist_get_set_eq.
    + rewrite IH by done.
      destruct (if KEY_RE_search name then alist_get env name else None);
        [done|].
      unfold clean_step. destruct (KEY_RE_search k); [|done].
      apply alist_get_set_ne. intros ->. by rewrite String.eqb_refl in E.
Qed.

(** What [_clean_environ] keeps: a variable is in the result exactly
    when its name matches [KEY_RE], with its value, or with [None] when
    the value is the empty string. *)
Theorem clean_environ_lookup (w : world) (name : string) :
  NoDup (environ w).*1 ->
  alist_get (_clean_environ w) name
  = if KEY_RE_search name then
      (fun v => if String.eqb v "" then VNone else VStr v)
        <$> alist_get (environ w) name
    else None.
Proof.
  intros Hnd. unfold _clean_environ. rewrite clean_from_acc by done.
  destruct (KEY_RE_search name); [|done].
  destruct (alist_get (environ w) name) as [v|]; [|done].
  by destruct v.
Qed.

Lemma clean_environ_lookup_witness :
  alist_get (_clean_environ world_unset) "HOME" = Some (VStr "/root").
Proof.
  rewrite (clean_environ_lookup world_unset "HOME"); [reflexivity|].
  apply (bool_decide_unpack _). vm_compute. exact I.
Defined.

(** *** The first parsed values *)

Lemma upper_snoc (s : string) (c : ascii) :
  upper (s +:+ String c "") = upper s +:+ String (upper_ascii c) "".
Proof. induction s as [|c' s IH]; [done|]. rewrite !append_cons. simpl. by rewrite IH. Qed.

Lemma last_char_snoc (s : string) (c : ascii) :
  last_char (s +:+ String c "") = Some c.
Proof.
  induction s as [|c' s IH]; [done|]. rewrite append_cons.
  cbn [last_char]. rewrite IH. by destruct s.
Qed.

Lemma last_char_upper (s : string) :
  last_char (upper s) = upper_ascii <$> last_char s.
Proof.
  induction s as [|c [|c' s] IH]; [done|done|].
  change (upper (String c (String c' s)))
    with (String (upper_ascii c) (upper (String c' s))).
  cbn [last_char] in *. rewrite <- IH. done.
Qed.

Lemma key_rest_last_alnum (s : string) :
  key_rest s = true -> exists c, last_char s = Some c /\ is_alnum c = true.
Proof.
  induction s as [|c [|c' s] IH]; [done| |].
  - intros H. by exists c.
  - cbn [key_rest last_char]. intros H. apply andb_prop in H as [_ H].
    by apply IH.
Qed.

(** The pattern [_init_parsed_values] builds from the load path ends in
    an underscore; a name that matches [KEY_RE] ends in a letter or a
    digit. *)
Lemma load_path_re_never_matches (lp : list string) (k : string) :
  KEY_RE_search k = true -> load_path_re_search lp k = false.
Proof.
  unfold KEY_RE_search, load_path_re_search. intros Hk.
  apply not_true_is_false. intros Hex.
  apply existsb_exists in Hex as (p & _ & Heq).
  apply String.eqb_eq in Heq.
  apply (f_equal last_char) in Heq.
  rewrite upper_snoc, last_char_snoc, last_char_upper in Heq.
  destruct (chomp_nl k) as [|c rest]; [done|].
  apply andb_prop in Hk as [_ Hr].
  destruct (key_rest_last_alnum _ Hr) as (c' & Hlast & Hal).
  assert (Hl : last_char (String c rest) = Some c').
  { destruct rest; [done|]. exact Hlast. }
  rewrite Hl in Heq. injection Heq as Heq.
  destruct c' as [[] [] [] [] [] [] [] []]; vm_compute in Hal; try done;
    vm_compute in Heq; done.
Qed.

Section InitParsed.
Variable lp : list string.
Let step (pv : flatmap value) (kv : string * value) : flatmap value :=
  let '(k, v) := kv in
  if load_path_re_search lp k then pv
  else setitem (flat (_Key_new [k])) (Some [k]) v pv.

Lemma init_parsed_other (d : list (string * value)) :
  forall acc key,
    key ∉ upper <$> d.*1 -> foldl step acc d !! key = acc !! key.
Proof.
  induction d as [|[k v] d IH]; intros acc key Hout; [done|].
  cbn [foldl]. rewrite fmap_cons, fmap_cons in Hout.
  apply not_elem_of_cons in Hout as [Hne Hout]. rewrite IH by done.
  unfold step. destruct (load_path_re_search lp k); [done|].
  apply setitem_lookup_ne. simpl in *. congruence.
Qed.

Lemma init_parsed_stored (d : list (string * value)) (name : string)
    (v : value) :
  forall acc,
    NoDup (upper <$> d.*1) ->
    (forall k x, (k, x) ∈ d -> KEY_RE_search k = true) ->
    (forall k x, (k, x) ∈ d -> acc !! upper k = None) ->
    (name, v) ∈ d ->
    foldl step acc d !! upper name = Some (Some [name], v).
Proof.
  induction d as [|[k x] d IH]; intros acc Hnd Hre Hfree Hin.
  - by apply elem_of_nil in Hin.
  - rewrite !fmap_cons in Hnd. apply NoDup_cons in Hnd as [Hk Hnd].
    cbn [foldl]. simpl in Hk.
    assert (Hstep : step acc (k, x) = <[upper k := (Some [k], x)]> acc).
    { unfold step. rewrite load_path_re_never_matches
        by (apply (Hre k x), list_elem_of_here).
      unfold setitem. simpl.
      by rewrite (Hfree k x (list_elem_of_here _ _)). }
    rewrite Hstep. apply elem_of_cons in Hin as [[= -> ->]|Hin].
    + rewrite init_parsed_other by done. apply lookup_insert_eq.
    + apply IH; [done| | |done].
      * intros k' x' H'. apply (Hre k' x'). by apply list_elem_of_further.
      * intros k' x' H'. rewrite lookup_insert_ne.
        -- apply (Hfree k' x'). by apply list_elem_of_further.
        -- intros Heq. apply Hk. rewrite Heq. apply list_elem_of_fmap.
           exists k'. split; [done|]. apply list_elem_of_fmap. by exists (k', x').
Qed.
End InitParsed.

(** What [_init_parsed_values] answers within the model, and the state
    it leaves. *)
Lemma init_parsed_values_ok (env : list (string * value)) (st st' : pystate)
    (u : ()) :
  _init_parsed_values env st = (Ok u, st') ->
  forallb word_name (deref (heap st) (_load_path st)) = true
  /\ st' = set_parsed_values
             (Some (foldl
                      (fun pv '(k, v) =>
                         if load_path_re_search
                              (deref (heap st) (_load_path st)) k
                         then pv
                         else setitem (flat (_Key_new [k])) (Some [k]) v pv)
                      ∅ env))
             st.
Proof.
  unfold _init_parsed_values.
  destruct (forallb word_name _); [|done]. by intros [= <-].
Qed.

(** For a load path of package names in word characters, every variable
    [_clean_environ] kept is a parsed value from the start, under its
    upper-case name and with its own name as the only part of the key:
    the pattern built from the load path excludes none of them. *)
Theorem parsed_values_start_from_environ (w : world) (st : pystate)
    (name : string) (v : value) :
  forallb word_name (deref (heap st) (_load_path st)) = true ->
  NoDup (upper <$> (_clean_environ w).*1) ->
  alist_get (_clean_environ w) name = Some v ->
  exists st' pv,
    _init_parsed_values (_clean_environ w) st = (Ok (), st')
    /\ _parsed_values st' = Some pv
    /\ pv !! upper name = Some (Some [name], v).
Proof.
  intros Hlp Hnd Hget. unfold _init_parsed_values. rewrite Hlp.
  eexists _, _. split; [reflexivity|]. split; [reflexivity|].
  apply init_parsed_stored; [done| |done|by apply alist_get_elem].
  intros k x Hin. apply (clean_environ_keys (environ w) [] k x); [|done].
  intros k' x' H'. by apply elem_of_nil in H'.
Qed.

Lemma parsed_values_start_from_environ_witness :
  exists st' pv,
    _init_parsed_values (_clean_environ world_unset) initial_state
    = (Ok (), st')
    /\ _parsed_values st' = Some pv
    /\ pv !! upper "HOME" = Some (Some ["HOME"], VStr "/root").
Proof.
  apply (parsed_values_start_from_environ world_unset initial_state "HOME"
           (VStr "/root")).
  - reflexivity.
  - apply (bool_decide_unpack _). vm_compute. exact I.
  - reflexivity.
Defined.

(** ** Coalescing *)

Lemma same_but_parsed_refl (st : pystate) : same_but_parsed st st.
Proof. by repeat split. Qed.

Lemma same_but_parsed_trans (st1 st2 st3 : pystate) :
  same_but_parsed st1 st2 -> same_but_parsed st2 st3 ->
  same_but_parsed st1 st3.
Proof.
  intros (? & ? & ? & ?) (? & ? & ? & ?). repeat split; congruence.
Qed.

Lemma iter_decl_frame (fuel : nat) (k : _Key) (spec : decl_spec)
    (res : list (string * value)) (st st' : pystate)
    (r : result (list (string * value))) :
  iter_decl fuel k spec res st = Some (r, st') -> same_but_parsed st st'.
Proof.
  unfold iter_decl. intros Hrun.
  destruct (res_walk (removelast (parts k)) (fun r => r) res);
    [|injection Hrun as _ <-; apply same_but_parsed_refl].
  destruct (last_item (parts k));
    [|injection Hrun as _ <-; apply same_but_parsed_refl].
  destruct (match group (_Declaration_init (Leaf spec)) with
            | Some (_ :: _) => true
            | _ => false
            end); [injection Hrun as _ <-; apply same_but_parsed_refl|].
  destruct (_resolver _ fuel st k _) as [[v|e]|]; [| |done];
    [|injection Hrun as _ <-; apply same_but_parsed_refl].
  destruct (res_walk _ _ res);
    [|injection Hrun as _ <-; apply same_but_parsed_refl].
  unfold record_parsed in Hrun.
  destruct (_parsed_values st);
    injection Hrun as _ <-; by repeat split.
Qed.

Lemma iter_decls_loop_frame (fuel : nat) (decls : flatmap decl_spec)
    (keys : list string) :
  forall res st st' r,
    iter_decls_loop fuel decls keys res st = Some (r, st') ->
    same_but_parsed st st'.
Proof.
  induction keys as [|k keys IH]; intros res st st' r Hrun.
  - injection Hrun as _ <-. apply same_but_parsed_refl.
  - cbn [iter_decls_loop] in Hrun.
    destruct (decls !! k) as [[[kparts|] spec]|];
      [| injection Hrun as _ <-; apply same_but_parsed_refl
       | injection Hrun as _ <-; apply same_but_parsed_refl].
    destruct (iter_decl fuel (mk_Key k kparts) spec res st)
      as [[[res'|e] st1]|] eqn:Hd; [| |done].
    + apply (same_but_parsed_trans st st1 st'); [|by apply (IH _ _ _ _ Hrun)].
      by apply iter_decl_frame in Hd.
    + injection Hrun as _ <-. by apply iter_decl_frame in Hd.
Qed.

(** Once the raw values are there, [init] leaves them, the load path and
    [cfg] alone. *)
Lemma init_frame (fuel : nat) (w : world) (m : caller)
    (kwargs : list (string * nested decl_spec)) (st st' : pystate)
    (r : result (option value)) :
  raw_values_truthy st = true ->
  init fuel w m kwargs st = Some (r, st') -> same_but_parsed st st'.
Proof.
  intros Htruthy Hrun. destruct fuel as [|fuel]; [done|]. cbn [init] in Hrun.
  destruct m as [|name]; [injection Hrun as _ <-; apply same_but_parsed_refl|].
  destruct (negb _); [injection Hrun as _ <-; apply same_but_parsed_refl|].
  destruct (_flatten_keys [] _ ∅) as [decls|];
    [|injection Hrun as _ <-; apply same_but_parsed_refl].
  destruct fuel as [|fuel]; [done|]. cbn [_coalesce_values] in Hrun.
  rewrite Htruthy in Hrun.
  destruct (_iter_decls (S fuel) decls [] st) as [[[res|e] st2]|] eqn:Hd;
    [| |done]; injection Hrun as _ <-;
    by apply iter_decls_loop_frame in Hd.
Qed.

Lemma append_loop_frame (ps : list string) (st : pystate) :
  let st' := foldl
       (fun st p =>
          if bool_decide (p ∈ deref (heap st) (_load_path st)) then st
          else set_heap (heap_append (_load_path st) p (heap st)) st)
       st ps in
  _raw_values st' = _raw_values st /\ _parsed_values st' = _parsed_values st
  /\ cfg st' = cfg st.
Proof.
  revert st. induction ps as [|p ps IH]; intros st; [done|]. cbn [foldl].
  case_bool_decide; [apply IH|].
  destruct (IH (set_heap (heap_append (_load_path st) p (heap st)) st))
    as (-> & -> & ->). done.
Qed.

Lemma append_load_path_frame (arg : load_path_arg) (st : pystate) :
  exists st', append_load_path arg st = (Ok (), st')
              /\ _raw_values st' = _raw_values st
              /\ _load_path st' = _load_path st.
Proof.
  pose proof (append_load_path_returns arg st) as Hr.
  destruct (append_load_path arg st) as [r st'] eqn:Hrun. simpl in Hr.
  subst r. exists st'. split; [done|].
  unfold append_load_path in Hrun.
  rewrite append_loop_load_path in Hrun.
  rewrite bool_decide_eq_false_2 in Hrun by (by intros H; apply H).
  injection Hrun as <-.
  split; [apply append_loop_frame|apply append_loop_load_path].
Qed.

Lemma setitem_nonempty {A} (k : string) (kp : option (list string)) (v : A)
    (d : flatmap A) : setitem k kp v d <> ∅.
Proof.
  unfold setitem. destruct (d !! k) as [[p a]|]; apply insert_non_empty.
Qed.

(** What a successful run of [_coalesce_values] from a state without raw
    values leaves behind. *)
Lemma coalesce_values_computed (fuel : nat) (w : world) (st st' : pystate)
    (r : option (flatmap value)) :
  raw_values_truthy st = false ->
  _coalesce_values fuel w st = Some (Ok r, st') ->
  exists raw channel,
    r = Some raw /\ _raw_values st' = Some raw
    /\ raw_values_truthy st' = true
    /\ channel = from_option id CHANNEL_DEFAULT (getenv w CHANNEL_ENV_NAME)
    /\ channel ∈ VALID_CHANNELS
    /\ getitem raw CHANNEL_ENV_NAME = Some (VStr channel)
    /\ getitem raw LOAD_PATH_ENV_NAME
       = Some (VList (VStr <$> deref (heap st') (_load_path st'))).
Proof.
  intros Hfalse Hrun. destruct fuel as [|fuel]; [done|].
  cbn [_coalesce_values] in Hrun. rewrite Hfalse in Hrun.
  destruct (append_load_path _ st) as [[u|e] st1]; [|done].
  case_bool_decide as Hch; [|done]. cbn [negb] in Hrun.
  destruct (_ ≫= _) as [values|]; [|done].
  destruct (_init_parsed_values _ _) as [[u'|e'] st3] eqn:Hip; [|done].
  apply init_parsed_values_ok in Hip as [_ ->].
  match type of Hrun with
  | match init fuel ?w ?m ?k ?s with _ => _ end = _ =>
      destruct (init fuel w m k s) as [[[c|e] st4]|] eqn:Hi; [| |done];
      [|done]
  end.
  injection Hrun as <- <-.
  apply init_frame in Hi as (Hheap & Hlp & Hraw & _).
  2:{ unfold raw_values_truthy. simpl.
      rewrite bool_decide_eq_false_2; [done|]. apply setitem_nonempty. }
  simpl in Hraw, Hheap, Hlp.
  eexists _, _. split; [exact Hraw|]. split; [exact Hraw|].
  split; [|split; [reflexivity|split; [exact Hch|]]].
  - unfold raw_values_truthy. simpl. rewrite Hraw.
    rewrite bool_decide_eq_false_2; [done|]. apply setitem_nonempty.
  - simpl. rewrite Hheap, Hlp. rewrite !getitem_setitem.
    split; [|by case_decide]. by repeat case_decide.
Qed.

(** The raw values are computed once: after a successful call, every
    later call returns the same raw values and changes nothing, whatever
    the environment and the configuration files have become. *)
Theorem coalesce_values_memoized (fuel fuel' : nat) (w w' : world)
    (st st' : pystate) (r : option (flatmap value)) :
  _coalesce_values fuel w st = Some (Ok r, st') ->
  _coalesce_values (S fuel') w' st' = Some (Ok r, st').
Proof.
  intros Hrun. destruct (raw_values_truthy st) eqn:Htruthy.
  - destruct fuel as [|fuel]; [done|]. cbn [_coalesce_values] in Hrun.
    rewrite Htruthy in Hrun. injection Hrun as <- <-.
    cbn [_coalesce_values]. by rewrite Htruthy.
  - destruct (coalesce_values_computed _ _ _ _ _ Htruthy Hrun)
      as (raw & ch & -> & Hraw & Ht & _).
    cbn [_coalesce_values]. by rewrite Ht, Hraw.
Qed.

Lemma coalesce_values_memoized_witness :
  _coalesce_values 1 two_packages coalesced_state
  = Some (Ok (_raw_values coalesced_state), coalesced_state).
Proof.
  apply (coalesce_values_memoized 3 0 bare_world two_packages initial_state).
  vm_compute. reflexivity.
Defined.

(** The raw values always carry the two implicit bindings: the channel,
    which is one of the valid channels, and the load path as it stands
    when coalescing ends. An environment variable of either name is
    overridden. *)
Theorem coalesce_values_implicit_bindings (fuel : nat) (w : world)
    (st st' : pystate) (r : option (flatmap value)) :
  raw_values_truthy st = false ->
  _coalesce_values fuel w st = Some (Ok r, st') ->
  exists raw channel,
    r = Some raw /\ _raw_values st' = Some raw
    /\ channel = from_option id CHANNEL_DEFAULT (getenv w CHANNEL_ENV_NAME)
    /\ channel ∈ VALID_CHANNELS
    /\ getitem raw CHANNEL_ENV_NAME = Some (VStr channel)
    /\ getitem raw LOAD_PATH_ENV_NAME
       = Some (VList (VStr <$> deref (heap st') (_load_path st'))).
Proof.
  intros Hfalse Hrun.
  destruct (coalesce_values_computed _ _ _ _ _ Hfalse Hrun)
    as (raw & ch & ? & ? & _ & ? & ? & ? & ?).
  by exists raw, ch.
Qed.

Lemma coalesce_values_implicit_bindings_witness :
  exists raw channel,
    _raw_values coalesced_state = Some raw
    /\ _raw_values coalesced_state = Some raw
    /\ channel = from_option id CHANNEL_DEFAULT (getenv bare_world CHANNEL_ENV_NAME)
    /\ channel ∈ VALID_CHANNELS
    /\ getitem raw CHANNEL_ENV_NAME = Some (VStr channel)
    /\ getitem raw LOAD_PATH_ENV_NAME
       = Some (VList (VStr <$> deref (heap coalesced_state)
                                     (_load_path coalesced_state))).
Proof.
  apply (coalesce_values_implicit_bindings 3 bare_world initial_state).
  - reflexivity.
  - vm_compute. reflexivity.
Defined.

(** A channel that is not one of the four valid ones stops coalescing
    with an assertion; the raw values stay unset. *)
Theorem coalesce_values_invalid_channel (fuel : nat) (w : world)
    (st : pystate) (c : string) :
  raw_values_truthy st = false ->
  getenv w CHANNEL_ENV_NAME = Some c ->
  c ∉ VALID_CHANNELS ->
  exists m st',
    _coalesce_values (S fuel) w st = Some (Err (AssertionError m), st')
    /\ _raw_values st' = _raw_values st.
Proof.
  intros Hfalse Hc Hbad. cbn [_coalesce_values]. rewrite Hfalse.
  match goal with
  | |- context [append_load_path ?a st] =>
      destruct (append_load_path_frame a st) as (st1 & -> & Hraw & _)
  end.
  rewrite Hc. simpl. rewrite bool_decide_eq_false_2 by done. simpl.
  by eexists _, _.
Qed.

Lemma coalesce_values_invalid_channel_witness :
  exists m st',
    _coalesce_values 1
      {| environ := [(CHANNEL_ENV_NAME, "production")];
         base_pkconfig := fun _ => None;
         home_pkconfig := fun _ => None |} initial_state
    = Some (Err (AssertionError m), st')
    /\ _raw_values st' = _raw_values initial_state.
Proof.
  apply (coalesce_values_invalid_channel 0 _ initial_state "production").
  - reflexivity.
  - reflexivity.
  - intros H. repeat (apply elem_of_cons in H as [H|H]; [done|]).
    by apply elem_of_nil in H.
Defined.

(** ** Channels *)

Lemma channel_in_from_valid (c : string) (st : pystate) (args : list string) :
  forall res,
    cfg_channel st = Ok (VStr c) ->
    (forall a, a ∈ args -> a ∈ VALID_CHANNELS) ->
    channel_in_from res args st = Ok (res || bool_decide (c ∈ args)).
Proof.
  induction args as [|a args IH]; intros res Hc Hvalid.
  - simpl. by rewrite orb_false_r.
  - cbn [channel_in_from].
    rewrite (bool_decide_eq_true_2 (a ∈ VALID_CHANNELS))
      by (apply Hvalid, list_elem_of_here).
    cbn [negb]. rewrite Hc. simpl.
    rewrite IH; [|done|intros x Hx; by apply Hvalid, list_elem_of_further].
    f_equal. destruct (String.eqb a c) eqn:E.
    + apply String.eqb_eq in E as ->.
      rewrite (bool_decide_eq_true_2 (c ∈ c :: args)) by apply list_elem_of_here.
      by rewrite orb_true_r.
    + destruct (bool_decide (c ∈ args)) eqn:Hin.
      * apply bool_decide_eq_true_1 in Hin.
        rewrite (bool_decide_eq_true_2 (c ∈ a :: args))
          by (by apply list_elem_of_further).
        done.
      * apply bool_decide_eq_false_1 in Hin.
        rewrite (bool_decide_eq_false_2 (c ∈ a :: args)); [done|].
        intros [->|?]%elem_of_cons; [|done].
        by rewrite String.eqb_refl in E.
Qed.

(** With valid channel names as arguments, [channel_in] answers whether
    the configured channel is one of them. *)
Theorem channel_in_membership (c : string) (st : pystate)
    (args : list string) :
  cfg_channel st = Ok (VStr c) ->
  (forall a, a ∈ args -> a ∈ VALID_CHANNELS) ->
  channel_in args st = Ok (bool_decide (c ∈ args)).
Proof. intros Hc Hvalid. unfold channel_in. by rewrite (channel_in_from_valid c). Qed.

Lemma channel_in_membership_witness :
  channel_in ["dev"; "beta"] (cfg_of_channel "beta")
  = Ok (bool_decide ("beta" ∈ ["dev"; "beta"])).
Proof.
  apply (channel_in_membership "beta" (cfg_of_channel "beta") ["dev"; "beta"]).
  - reflexivity.
  - intros a Ha. apply (bool_decide_unpack _).
    repeat (apply elem_of_cons in Ha as [->|Ha]; [by vm_compute|]).
    by apply elem_of_nil in Ha.
Defined.

Lemma channel_in_from_invalid (c : string) (st : pystate)
    (before after : list string) (a : string) :
  cfg_channel st = Ok (VStr c) ->
  (forall x, x ∈ before -> x ∈ VALID_CHANNELS) ->
  a ∉ VALID_CHANNELS ->
  forall res,
    channel_in_from res (before ++ a :: after) st
    = Err (AssertionError [Lit a; Lit ": invalid channel argument"]).
Proof.
  intros Hc Hvalid Hbad.
  induction before as [|b before IH]; intros res.
  - cbn [app channel_in_from].
    by rewrite (bool_decide_eq_false_2 (a ∈ VALID_CHANNELS)).
  - cbn [app channel_in_from].
    rewrite (bool_decide_eq_true_2 (b ∈ VALID_CHANNELS))
      by (apply Hvalid, list_elem_of_here).
    cbn [negb]. rewrite Hc. simpl. apply IH.
    intros x Hx. by apply Hvalid, list_elem_of_further.
Qed.

(** An argument that is not a valid channel fails the call, also when
    an earlier argument has already matched the configured channel. *)
Theorem channel_in_invalid_argument (c : string) (st : pystate)
    (before after : list string) (a : string) :
  cfg_channel st = Ok (VStr c) ->
  (forall x, x ∈ before -> x ∈ VALID_CHANNELS) ->
  a ∉ VALID_CHANNELS ->
  channel_in (before ++ a :: after) st
  = Err (AssertionError [Lit a; Lit ": invalid channel argument"]).
Proof.
  intros Hc Hvalid Hbad. by apply (channel_in_from_invalid c).
Qed.

Lemma channel_in_invalid_argument_witness :
  channel_in (["dev"] ++ "test" :: ["prod"]) (cfg_of_channel "dev")
  = Err (AssertionError [Lit "test"; Lit ": invalid channel argument"]).
Proof.
  apply (channel_in_invalid_argument "dev" (cfg_of_channel "dev") ["dev"]
           ["prod"] "test").
  - reflexivity.
  - intros a Ha. apply (bool_decide_unpack _).
    repeat (apply elem_of_cons in Ha as [->|Ha]; [by vm_compute|]).
    by apply elem_of_nil in Ha.
  - intros H. repeat (apply elem_of_cons in H as [H|H]; [done|]).
    by apply elem_of_nil in H.
Defined.

(** [channel_in_internal_test] holds exactly on the channels [dev] and
    [alpha]. *)
Theorem channel_in_internal_test_channels (c : string) (st : pystate) :
  cfg_channel st = Ok (VStr c) ->
  channel_in_internal_test st
  = Ok (bool_decide (c = "dev" \/ c = "alpha")).
Proof.
  intros Hc. unfold channel_in_internal_test, channel_in.
  rewrite (channel_in_from_valid c).
  - f_equal. apply bool_decide_ext. unfold INTERNAL_TEST_CHANNELS. simpl.
    rewrite !elem_of_cons, elem_of_nil. tauto.
  - done.
  - intros a Ha. unfold INTERNAL_TEST_CHANNELS, VALID_CHANNELS in *.
    simpl in Ha. apply elem_of_cons in Ha as [->|Ha]; [apply list_elem_of_here|].
    apply list_elem_of_singleton in Ha as ->.
    apply list_elem_of_further, list_elem_of_here.
Qed.

Lemma channel_in_internal_test_channels_witness :
  channel_in_internal_test (cfg_of_channel "prod")
  = Ok (bool_decide ("prod" = "dev" \/ "prod" = "alpha")).
Proof.
  exact (channel_in_internal_test_channels "prod" (cfg_of_channel "prod")
           eq_refl).
Defined.

(** ** Scalar resolution *)

(** The default is a fallback and nothing more: a key that is absent
    resolves as if the raw values held the declared default, and a key
    that is present resolves the same whatever the default is. *)
Theorem default_stands_in_for_raw_value (st : pystate) (raw : flatmap value)
    (fuel : nat) (key : _Key) (p : callable) (d d' : value)
    (doc doc' : string) (kp : option (list string)) :
  _raw_values st = Some raw ->
  (getitem raw (flat key) = None ->
   _resolve_value fuel st key (_Declaration_init (Leaf (Tuple3 d p doc)))
   = _resolve_value fuel
       (set_raw_values (Some (setitem (flat key) kp d raw)) st) key
       (_Declaration_init (Leaf (Tuple3 d' p doc'))))
  /\ (is_Some (getitem raw (flat key)) ->
      _resolve_value fuel st key (_Declaration_init (Leaf (Tuple3 d p doc)))
      = _resolve_value fuel st key
          (_Declaration_init (Leaf (Tuple3 d' p doc')))).
Proof.
  intros Hraw. split.
  - intros Hnone. unfold _resolve_value. cbn [_raw_values set_raw_values].
    rewrite Hraw, Hnone, getitem_setitem. by rewrite decide_True.
  - intros [v Hv]. unfold _resolve_value. by rewrite Hraw, Hv.
Qed.

Lemma default_stands_in_for_raw_value_witness :
  _resolve_value 1 (set_raw_values (Some raw_items) initial_state)
    (_Key_new ["pkg"; "mod"; "x"])
    (_Declaration_init (Leaf (Tuple3 (VStr "plain") py_str "")))
  = _resolve_value 1
      (set_raw_values
         (Some (setitem (flat (_Key_new ["pkg"; "mod"; "x"]))
                        (Some ["pkg"; "mod"; "x"]) (VStr "plain") raw_items))
         (set_raw_values (Some raw_items) initial_state))
      (_Key_new ["pkg"; "mod"; "x"])
      (_Declaration_init (Leaf (Tuple3 VNone py_str "other"))).
Proof.
  exact (proj1 (default_stands_in_for_raw_value
                  (set_raw_values (Some raw_items) initial_state) raw_items 1
                  (_Key_new ["pkg"; "mod"; "x"]) py_str (VStr "plain") VNone
                  "" "other" (Some ["pkg"; "mod"; "x"]) eq_refl) eq_refl).
Defined.

Lemma format_scan_no_brace (kwargs : flatmap value) (s : string) :
  no_brace s = true -> format_scan kwargs s None = Ok s.
Proof.
  induction s as [|c s IH]; [done|]. cbn [no_brace]. intros H.
  apply andb_prop in H as [H Hs]. apply andb_prop in H as [Ho Hc].
  apply negb_true_iff in Ho, Hc.
  rewrite format_scan_literal, Ho, Hc, IH by done. reflexivity.
Qed.

Lemma plain_name_no_brace (s : string) : plain_name s = true -> no_brace s = true.
Proof.
  induction s as [|c s IH]; [done|]. cbn [plain_name no_brace]. intros H.
  apply andb_prop in H as [H Hs]. apply andb_prop in H as [Hc Hsp].
  rewrite Hc, (IH Hs), andb_true_r. cbn [andb].
  unfold field_special in Hsp. by destruct (Ascii.eqb c "{").
Qed.

(** A text without braces is its own substitution: the loop takes one
    turn, sees the text again and hands it to the parser. *)
Theorem brace_free_value_is_parsed_as_is (st : pystate)
    (raw kwargs : flatmap value) (fuel : nat) (key : _Key) (p : callable)
    (d : value) (doc s : string) :
  _raw_values st = Some raw ->
  _parsed_values st = Some kwargs ->
  getitem raw (flat key) = Some (VStr s) ->
  no_brace s = true ->
  _resolve_value (S fuel) st key (_Declaration_init (Leaf (Tuple3 d p doc)))
  = Some (call p (VStr s)).
Proof.
  intros Hraw Hpv Hv Hs. unfold _resolve_value. rewrite Hraw, Hv, Hpv.
  cbn [interpolate]. rewrite bool_decide_eq_false_2 by set_solver.
  unfold str_format. rewrite format_scan_no_brace by done.
  assert (Hseen : interpolate fuel (Some kwargs) ({[s]} ∪ ∅) (VStr s)
                  = Some (Ok (VStr s))).
  { destruct fuel; cbn [interpolate];
      by rewrite bool_decide_eq_true_2 by set_solver. }
  rewrite Hseen. reflexivity.
Qed.

Lemma brace_free_value_is_parsed_as_is_witness :
  _resolve_value 1
    (set_parsed_values (Some parsed_home)
       (set_raw_values (Some raw_unset) initial_state))
    (_Key_new ["home"])
    (_Declaration_init (Leaf (Tuple3 VNone py_str "")))
  = Some (Ok (VStr "/root")).
Proof.
  exact (brace_free_value_is_parsed_as_is
           (set_parsed_values (Some parsed_home)
              (set_raw_values (Some raw_unset) initial_state))
           raw_unset parsed_home 0 (_Key_new ["home"]) py_str VNone ""
           "/root" eq_refl eq_refl eq_refl eq_refl).
Defined.

Lemma length_append (a b : string) :
  String.length (a +:+ b) = String.length a + String.length b.
Proof.
  induction a as [|x a IH]; [done|]. rewrite append_cons. simpl. by rewrite IH.
Qed.

(** Doubled braces do not keep a placeholder from substitution: the
    first turn of the loop unwraps them, the second substitutes the
    placeholder they were meant to protect. *)
Theorem doubled_braces_are_substituted (st : pystate)
    (raw kwargs : flatmap value) (fuel : nat) (key : _Key) (p : callable)
    (d : value) (doc name v : string) :
  _raw_values st = Some raw ->
  _parsed_values st = Some kwargs ->
  getitem raw (flat key)
    = Some (VStr ("{{" +:+ name +:+ "}}")) ->
  plain_name name = true ->
  all_digits name = false ->
  getitem kwargs name = Some (VStr v) ->
  no_brace v = true ->
  _resolve_value (3 + fuel) st key (_Declaration_init (Leaf (Tuple3 d p doc)))
  = Some (call p (VStr v)).
Proof.
  intros Hraw Hpv Hget Hplain Hdig Hv Hnb.
  assert (H1 : str_format ("{{" +:+ name +:+ "}}") (Some kwargs)
               = Ok ("{" +:+ name +:+ "}")).
  { unfold str_format.
    change ("{{" +:+ name +:+ "}}")
      with (String "{" (String "{" (name +:+ "}}"))).
    rewrite format_scan_literal. cbn [Ascii.eqb Bool.eqb].
    rewrite (format_scan_app kwargs _ name None name "}}" (le_n _)
               (format_scan_no_brace _ _ (plain_name_no_brace _ Hplain))).
    reflexivity. }
  assert (H2 : str_format ("{" +:+ name +:+ "}") (Some kwargs) = Ok v).
  { unfold str_format.
    change ("{" +:+ name +:+ "}") with (String "{" (name +:+ String "}" "")).
    rewrite format_scan_literal. cbn [Ascii.eqb Bool.eqb].
    destruct name as [|c name']; [done|]. rewrite append_cons.
    assert (Hc : Ascii.eqb c "{" = false).
    { simpl in Hplain. apply andb_prop in Hplain as [Hc _].
      apply andb_prop in Hc as [_ Hc]. apply negb_true_iff in Hc.
      unfold field_special in Hc. by destruct (Ascii.eqb c "{"). }
    rewrite Hc, <- append_cons, format_scan_field by done.
    rewrite append_nil_l. unfold format_field. rewrite Hdig, Hv.
    cbn. by rewrite append_nil_r. }
  assert (H3 : str_format v (Some kwargs) = Ok v)
    by (by apply format_scan_no_brace).
  assert (Hlen : forall a b : string, a = b -> String.length a = String.length b)
    by (by intros a b ->).
  unfold _resolve_value. rewrite Hraw, Hget, Hpv.
  change (3 + fuel) with (S (S (S fuel))). cbn [interpolate].
  rewrite bool_decide_eq_false_2 by set_solver. rewrite H1.
  rewrite bool_decide_eq_false_2.
  2:{ intros Hin. apply elem_of_union in Hin as [Hin|Hin]; [|set_solver].
      apply elem_of_singleton in Hin. apply Hlen in Hin.
      rewrite !length_append in Hin. simpl in Hin. lia. }
  rewrite H2.
  destruct (bool_decide (v ∈ ({[("{" +:+ name +:+ "}")%string]}
                                ∪ ({[("{{" +:+ name +:+ "}}")%string]} ∪ ∅)
                              : gset string))) eqn:Hseen; [done|].
  rewrite H3.
  assert (Hstop : forall seen : gset string,
             interpolate fuel (Some kwargs) ({[v]} ∪ seen) (VStr v)
             = Some (Ok (VStr v))).
  { intros seen. destruct fuel; cbn [interpolate];
      by rewrite bool_decide_eq_true_2 by set_solver. }
  by rewrite Hstop.
Qed.

Lemma doubled_braces_are_substituted_witness :
  _resolve_value 3
    (set_parsed_values (Some parsed_home)
       (set_raw_values (Some raw_escaped) initial_state))
    (_Key_new ["pkg"; "mod"; "x"])
    (_Declaration_init (Leaf (Tuple3 VNone py_str "")))
  = Some (Ok (VStr "/root")).
Proof.
  exact (doubled_braces_are_substituted
           (set_parsed_values (Some parsed_home)
              (set_raw_values (Some raw_escaped) initial_state))
           raw_escaped parsed_home 0 (_Key_new ["pkg"; "mod"; "x"]) py_str
           VNone "" "HOME" "/root"
           eq_refl eq_refl eq_refl eq_refl eq_refl eq_refl eq_refl).
Defined.

(** ** List and dictionary resolution *)

(** The default of a list declaration: a default that is false in the
    sense of Python stands for the empty list, and any other default
    that is not a list fails the resolution whatever the raw value. *)
Theorem resolve_list_default_edge (st : pystate) (key : _Key)
    (decl : _Declaration) :
  (truthy (default decl) = false ->
   _resolve_list st key decl
   = _resolve_list st key
       {| default := VList []; parser := parser decl;
          docstring := docstring decl; group := group decl;
          required := required decl |})
  /\ (truthy (default decl) = true -> is_list (default decl) = false ->
      exists m, _resolve_list st key decl = Err (AssertionError m)).
Proof.
  split.
  - intros Hf. unfold _resolve_list. rewrite Hf. reflexivity.
  - intros Ht Hl. unfold _resolve_list. rewrite Ht.
    destruct (default decl); try done;
      match goal with
      | |- exists m, Err (assertion ?f) = _ =>
          destruct (assertion_is_AssertionError f) as [m' ->]; by exists m'
      end.
Qed.

Lemma resolve_list_default_edge_witness :
  exists m,
    _resolve_list (set_raw_values (Some raw_items) initial_state)
      (_Key_new ["pkg"; "mod"; "items"])
      (_Declaration_init (Leaf (Tuple3 (VStr "d1") py_list "")))
    = Err (AssertionError m).
Proof.
  exact (proj2 (resolve_list_default_edge
                  (set_raw_values (Some raw_items) initial_state)
                  (_Key_new ["pkg"; "mod"; "items"])
                  (_Declaration_init (Leaf (Tuple3 (VStr "d1") py_list ""))))
           eq_refl eq_refl).
Defined.

Lemma for_each_unchanged {A S} (body : S -> A -> result S) (l : list A) (s : S) :
  (forall a, a ∈ l -> body s a = Ok s) -> for_each body l s = Ok s.
Proof.
  induction l as [|a l IH]; intros Hall; [done|]. cbn [for_each].
  rewrite (Hall a (list_elem_of_here _ _)). simpl.
  apply IH. intros x Hx. by apply Hall, list_elem_of_further.
Qed.

(** A dictionary declaration none of whose keys is in the raw values,
    neither the key itself nor a key under its prefix, resolves to its
    default mapping, and to the empty mapping when it has none. *)
Theorem resolve_dict_without_raw_keys (st : pystate) (raw : flatmap value)
    (key : _Key) (decl : _Declaration) (d : list (string * value)) :
  _raw_values st = Some raw ->
  default decl = VMap d \/ (truthy (default decl) = false /\ d = []) ->
  (forall k, is_Some (raw !! k) ->
             k <> flat key /\ startswith k (flat key +:+ "_") = false) ->
  _resolve_dict st key decl = Ok (VMap d).
Proof.
  intros Hraw Hd Hkeys. unfold _resolve_dict.
  assert (Hstart : OrderedMapping (if truthy (default decl) then default decl
                                   else VMap []) = Ok d).
  { destruct Hd as [Hd|[Hd ->]]; [|by rewrite Hd].
    rewrite Hd. by destruct d. }
  rewrite Hstart, Hraw. simpl.
  rewrite for_each_unchanged; [done|].
  intros k Hk. apply elem_of_reverse, sorted_keys_elem in Hk.
  destruct (Hkeys k Hk) as [Hne Hpre].
  apply String.eqb_neq in Hne. by rewrite Hne, Hpre.
Qed.

Lemma resolve_dict_without_raw_keys_witness :
  _resolve_dict (set_raw_values (Some raw_items) initial_state)
    (_Key_new ["pkg"; "mod"; "item"])
    (_Declaration_init
       (Leaf (Tuple3 (VMap [("a", VInt 1)]) py_dict "")))
  = Ok (VMap [("a", VInt 1)]).
Proof.
  apply (resolve_dict_without_raw_keys
           (set_raw_values (Some raw_items) initial_state) raw_items
           (_Key_new ["pkg"; "mod"; "item"]) _ [("a", VInt 1)] eq_refl).
  - by left.
  - intros k [x Hk]. unfold raw_items in Hk.
    apply lookup_insert_Some in Hk as [[<- _]|[_ Hk]].
    + split; [done|reflexivity].
    + by rewrite lookup_empty in Hk.
Defined.

(** ** Resolving the declarations of a module *)

Lemma iter_decl_records (fuel : nat) (k : _Key) (spec : decl_spec)
    (res res' : list (string * value)) (st st' : pystate) :
  iter_decl fuel k spec res st = Some (Ok res', st') ->
  exists pv v,
    _parsed_values st = Some pv
    /\ _parsed_values st' = Some (setitem (flat k) (Some (parts k)) v pv).
Proof.
  unfold iter_decl. intros Hrun.
  destruct (res_walk (removelast (parts k)) (fun r => r) res); [|done].
  destruct (last_item (parts k)); [|done].
  change (group (_Declaration_init (Leaf spec))) with (@None (list (string * nested decl_spec))) in Hrun
    || (destruct spec; simpl in Hrun).
  all: destruct (_resolver _ fuel st k _) as [[v|e]|]; [| |done]; [|done].
  all: destruct (res_walk _ _ res); [|done].
  all: unfold record_parsed in Hrun.
  all: destruct (_parsed_values st) as [pv|]; [|done].
  all: injection Hrun as _ <-; by exists pv, v.
Qed.

Lemma iter_decls_loop_records (fuel : nat) (decls : flatmap decl_spec)
    (keys : list string) :
  forall res res' st st',
    iter_decls_loop fuel decls keys res st = Some (Ok res', st') ->
    (forall k, k ∈ keys ->
       exists pv' v, _parsed_values st' = Some pv' /\ getitem pv' k = Some v)
    /\ (forall pv k, _parsed_values st = Some pv -> is_Some (getitem pv k) ->
          exists pv' v, _parsed_values st' = Some pv' /\ getitem pv' k = Some v).
Proof.
  induction keys as [|k keys IH]; intros res res' st st' Hrun.
  - injection Hrun as _ <-. split; [by intros k ?%elem_of_nil|].
    intros pv k Hpv [v Hv]. by exists pv, v.
  - cbn [iter_decls_loop] in Hrun.
    destruct (decls !! k) as [[[kparts|] spec]|]; [|done|done].
    destruct (iter_decl fuel (mk_Key k kparts) spec res st)
      as [[[res1|e] st1]|] eqn:Hd; [| |done]; [|done].
    destruct (iter_decl_records _ _ _ _ _ _ _ Hd) as (pv & v & Hpv & Hpv1).
    destruct (IH _ _ _ _ Hrun) as [IHin IHkeep].
    split.
    + intros k' Hk'. apply elem_of_cons in Hk' as [->|Hk']; [|by apply IHin].
      apply (IHkeep _ k Hpv1). rewrite getitem_setitem. simpl.
      rewrite decide_True by done. by eexists.
    + intros pv0 k' Hpv0 [v' Hv']. rewrite Hpv in Hpv0. injection Hpv0 as <-.
      apply (IHkeep _ k' Hpv1). rewrite getitem_setitem. simpl.
      case_decide; by eexists.
Qed.

(** Registration records a parsed value for every key it resolves and
    drops none that was there: after [_iter_decls] every declared key
    is a parsed value, and so is every key that was one before. *)
Theorem iter_decls_records_parsed_values (fuel : nat)
    (decls : flatmap decl_spec) (res res' : list (string * value))
    (st st' : pystate) :
  _iter_decls fuel decls res st = Some (Ok res', st') ->
  (forall k, is_Some (decls !! k) ->
     exists pv' v, _parsed_values st' = Some pv' /\ getitem pv' k = Some v)
  /\ (forall pv k, _parsed_values st = Some pv -> is_Some (getitem pv k) ->
        exists pv' v, _parsed_values st' = Some pv' /\ getitem pv' k = Some v).
Proof.
  unfold _iter_decls. intros Hrun.
  destruct (iter_decls_loop_records _ _ _ _ _ _ _ Hrun) as [Hin Hkeep].
  split; [|done]. intros k Hk. by apply Hin, sorted_keys_elem.
Qed.

Lemma iter_decls_records_parsed_values_witness :
  exists pv' v,
    _parsed_values
      (set_parsed_values (Some parsed_after_y)
         (set_raw_values (Some raw_items) initial_state)) = Some pv'
    /\ getitem pv' "PKG_MOD_Y" = Some v.
Proof.
  assert (Hrun : _iter_decls 2 decls_y []
                   (set_parsed_values (Some (∅ : flatmap value))
                      (set_raw_values (Some raw_items) initial_state))
                 = Some (Ok [("pkg", VMap [("mod", VMap [("y", VStr "b")])])],
                         set_parsed_values (Some parsed_after_y)
                           (set_raw_values (Some raw_items) initial_state)))
    by (vm_compute; reflexivity).
  apply (proj1 (iter_decls_records_parsed_values _ _ _ _ _ _ Hrun)).
  by eexists.
Defined.

(** ** The layers of the raw values *)

Lemma alist_get_NoDup {A} (k : string) (v : A) (d : list (string * A)) :
  NoDup d.*1 -> (k, v) ∈ d -> alist_get d k = Some v.
Proof.
  induction d as [|[k' v'] d IH]; intros Hnd Hin; [by apply elem_of_nil in Hin|].
  simpl in Hnd. apply NoDup_cons in Hnd as [Hk Hnd]. simpl.
  apply elem_of_cons in Hin as [[= <- <-]|Hin].
  - by rewrite String.eqb_refl.
  - destruct (String.eqb k' k) eqn:E; [|by apply IH].
    apply String.eqb_eq in E as ->. destruct Hk.
    apply list_elem_of_fmap. by exists (k, v).
Qed.

(** Merging the environment as a source stores every value that is
    not a list under the upper-case name of its variable. *)
Lemma environ_merged (w : world) (values merged : flatmap value)
    (name : string) (x : value) :
  _values_flatten values (as_source (_clean_environ w)) = Ok merged ->
  alist_get (_clean_environ w) name = Some x ->
  is_list x = false ->
  getitem merged (upper name) = Some x.
Proof.
  intros Hmerge Hget Hx. unfold _values_flatten in Hmerge.
  destruct (_flatten_keys [] (as_source (_clean_environ w)) ∅)
    as [nv|] eqn:Hf; [|done]. simpl in Hmerge.
  pose proof (flatten_keys_parts _ _ Hf) as Hparts.
  pose proof (flatten_items_extends _ _ _ _ Hf) as [leaf _ _ _].
  rewrite leaves_as_source in leaf.
  assert (Hre : KEY_RE_search name = true).
  { apply (clean_environ_keys (environ w) [] name x);
      [by intros ? ? ?%elem_of_nil|by apply alist_get_elem]. }
  assert (Hnv : nv !! upper name = Some (Some [name], x)).
  { apply (leaf [name] x). apply list_elem_of_fmap.
    exists (name, x). split; [|by apply alist_get_elem].
    simpl. by rewrite KEY_RE_single_segment. }
  destruct (merge_loop_ok nv Hparts _ _ _ (sorted_keys_NoDup _)
              (fun k => proj1 (sorted_keys_elem nv k)) Hmerge) as [Hin' _].
  destruct (Hin' (upper name) x) as [-> _].
  - apply sorted_keys_elem. by eexists.
  - unfold getitem. by rewrite Hnv.
  - destruct (getitem values (upper name)) as [b|]; [|done].
    by destruct b, x.
Qed.

(** The steps of a successful run of [_coalesce_values] that computes
    the raw values. *)
Lemma coalesce_values_layers (fuel : nat) (w : world) (st st' : pystate)
    (r : option (flatmap value)) :
  raw_values_truthy st = false ->
  _coalesce_values fuel w st = Some (Ok r, st') ->
  exists fuel' st1 files merged c st4 pv,
    fuel = S fuel'
    /\ st1 = (append_load_path
                (match getenv w LOAD_PATH_ENV_NAME with
                 | Some s => LpStr s
                 | None => LpList LOAD_PATH_DEFAULT
                 end) st).2
    /\ _values_flatten files (as_source (_clean_environ w)) = Ok merged
    /\ init fuel' w (caller_module "pykern.pkconfig") pkconfig_decls
         (set_parsed_values (Some pv)
            (set_raw_values
               (Some (setitem LOAD_PATH_ENV_NAME None
                        (VList (VStr <$> deref (heap st1) (_load_path st1)))
                        (setitem CHANNEL_ENV_NAME None
                           (VStr (from_option id CHANNEL_DEFAULT
                                    (getenv w CHANNEL_ENV_NAME)))
                           merged)))
               st1))
       = Some (Ok c, st4)
    /\ from_option id CHANNEL_DEFAULT (getenv w CHANNEL_ENV_NAME)
       ∈ VALID_CHANNELS
    /\ r = _raw_values st4
    /\ st' = set_cfg c st4.
Proof.
  intros Hfalse Hrun. destruct fuel as [|fuel]; [done|].
  cbn [_coalesce_values] in Hrun. rewrite Hfalse in Hrun.
  destruct (append_load_path _ st) as [[u|e] st1]; [|done].
  case_bool_decide as Hch; [|done]. cbn [negb] in Hrun.
  destruct (for_each
              (fun values p =>
                 merge_module _ (base_pkconfig w p) values) _ ∅)
    as [v1|]; [|done]. cbn [mbind result_bind] in Hrun.
  destruct (for_each
              (fun values p =>
                 merge_module _ (home_pkconfig w p) values) _ v1)
    as [files|]; [|by cbn [mbind result_bind] in Hrun].
  cbn [mbind result_bind] in Hrun.
  destruct (_values_flatten files (as_source (_clean_environ w)))
    as [merged|] eqn:Hm; [|done].
  destruct (_init_parsed_values _ _) as [[u'|e'] st3] eqn:Hip; [|done].
  apply init_parsed_values_ok in Hip as [_ ->].
  match type of Hrun with
  | match init fuel ?w ?m ?k ?s with _ => _ end = _ =>
      destruct (init fuel w m k s) as [[[c|e] st4]|] eqn:Hi; [| |done];
      [|done]
  end.
  injection Hrun as <- <-.
  by eexists fuel, st1, files, merged, c, st4, _.
Qed.

Lemma coalesce_values_environ (fuel : nat) (w : world)
    (st st' : pystate) (raw : flatmap value) (name v : string) :
  raw_values_truthy st = false ->
  _coalesce_values fuel w st = Some (Ok (Some raw), st') ->
  NoDup (environ w).*1 ->
  (name, v) ∈ environ w ->
  KEY_RE_search name = true ->
  upper name <> CHANNEL_ENV_NAME ->
  upper name <> LOAD_PATH_ENV_NAME ->
  getitem raw (upper name)
  = Some (if String.eqb v "" then VNone else VStr v).
Proof.
  intros Hfalse Hrun Hnd Hin Hre Hn1 Hn2.
  destruct (coalesce_values_layers _ _ _ _ _ Hfalse Hrun)
    as (fuel' & st1 & files & merged & c & st4 & pv0 & -> & _ & Hm & Hi & _ & Hr & _).
  apply init_frame in Hi as (_ & _ & Hraw & _).
  2:{ unfold raw_values_truthy. simpl.
      rewrite bool_decide_eq_false_2; [done|]. apply setitem_nonempty. }
  simpl in Hraw. rewrite Hraw in Hr. injection Hr as ->.
  rewrite !getitem_setitem.
  rewrite decide_False by done. rewrite decide_False by done.
  apply (environ_merged w files); [done| |by destruct (String.eqb v "")].
  unfold _clean_environ. rewrite clean_from_acc, Hre by done.
  rewrite (alist_get_NoDup name v) by done. by destruct v.
Qed.

(** The environment has the last word: in the raw values, a variable
    whose name matches [KEY_RE] holds its value from the environment,
    [None] for the empty string, whatever the configuration files set
    under that key. The two names the engine binds itself are the
    exception. *)
Theorem environment_overrides_files (fuel : nat) (w : world)
    (st st' : pystate) (raw : flatmap value) (name v : string) :
  raw_values_truthy st = false ->
  _coalesce_values fuel w st = Some (Ok (Some raw), st') ->
  NoDup (environ w).*1 ->
  (name, v) ∈ environ w ->
  KEY_RE_search name = true ->
  upper name <> CHANNEL_ENV_NAME ->
  upper name <> LOAD_PATH_ENV_NAME ->
  getitem raw (upper name)
  = Some (if String.eqb v "" then VNone else VStr v).
Proof. apply coalesce_values_environ. Qed.

Lemma environment_overrides_files_witness :
  exists raw,
    _raw_values growing_state = Some raw
    /\ getitem raw (upper "AB")
       = Some (if String.eqb "{AB}x" "" then VNone else VStr "{AB}x").
Proof.
  exists (from_option id ∅ (_raw_values growing_state)).
  split; [vm_compute; reflexivity|].
  apply (environment_overrides_files 3 growing_world initial_state
           growing_state _ "AB" "{AB}x").
  - reflexivity.
  - vm_compute. reflexivity.
  - apply (bool_decide_unpack _). vm_compute. exact I.
  - apply list_elem_of_here.
  - reflexivity.
  - discriminate.
  - discriminate.
Defined.

(** C8, as the code has it. An environment variable set to the empty
    string is captured as [None]; after coalescing, the raw values hold
    [None] under the key its name flattens to, the two names the engine
    binds itself apart; and a leaf declared under that key with a
    parser that is not [dict] and has no parse-none marker resolves to
    [None], whatever the parser would answer. For a [list] declaration
    the default has to pass the test the resolver makes first. *)
Theorem empty_environ_value_resolves_to_none (fuel fuel' : nat) (w : world)
    (st st' : pystate) (raw : flatmap value) (name : string) (key : _Key)
    (decl : _Declaration) (p : callable) :
  raw_values_truthy st = false ->
  _coalesce_values fuel w st = Some (Ok (Some raw), st') ->
  NoDup (environ w).*1 ->
  (name, "") ∈ environ w ->
  KEY_RE_search name = true ->
  flat key = upper name ->
  flat key <> CHANNEL_ENV_NAME ->
  flat key <> LOAD_PATH_ENV_NAME ->
  parser decl = Some p ->
  parse_none_attr p = false ->
  ident p <> builtin_dict ->
  (ident p = builtin_list ->
   truthy (default decl) = false \/ is_list (default decl) = true) ->
  alist_get (_clean_environ w) name = Some VNone
  /\ getitem raw (flat key) = Some VNone
  /\ _resolver decl fuel' st' key decl = Some (Ok VNone).
Proof.
  intros Hfalse Hrun Hnd Hin Hre Hkey Hn1 Hn2 Hp Hpn Hdict Hlist.
  assert (Hclean : alist_get (_clean_environ w) name = Some VNone)
    by (by apply clean_empty_value).
  assert (Hget : getitem raw (flat key) = Some VNone).
  { rewrite Hkey in *.
    by rewrite (coalesce_values_environ fuel w st st' raw name ""
                  Hfalse Hrun Hnd Hin Hre Hn1 Hn2). }
  destruct (coalesce_values_computed _ _ _ _ _ Hfalse Hrun)
    as (raw' & ch & [= <-] & Hraw & _).
  repeat split; [done..|].
  destruct (ident p) eqn:Hid; [|done|].
  - rewrite (resolver_list st' p decl Hp Hid). f_equal.
    unfold _resolve_list. rewrite Hraw, Hget.
    destruct (Hlist eq_refl) as [Hd|Hd]; [by rewrite Hd|].
    destruct (default decl); try done. by destruct (truthy _).
  - rewrite (resolver_scalar st' p decl Hp Hid).
    unfold _resolve_value. rewrite Hraw, Hget. simpl.
    destruct fuel'; simpl; by rewrite Hp, Hpn.
Qed.

Lemma empty_environ_value_resolves_to_none_witness :
  exists raw st',
    _coalesce_values 3 world_unset initial_state = Some (Ok (Some raw), st')
    /\ alist_get (_clean_environ world_unset) "PKG_MOD_X" = Some VNone
    /\ getitem raw "PKG_MOD_X" = Some VNone
    /\ _resolver (_Declaration_init (Leaf (Tuple3 (VStr "dflt") py_str "")))
         0 st' (_Key_new ["pkg"; "mod"; "x"])
         (_Declaration_init (Leaf (Tuple3 (VStr "dflt") py_str "")))
       = Some (Ok VNone).
Proof.
  set (run := _coalesce_values 3 world_unset initial_state).
  set (raw := match run with Some (Ok (Some r), _) => r | _ => ∅ end).
  set (st' := match run with Some (_, s) => s | None => initial_state end).
  assert (Hrun : run = Some (Ok (Some raw), st')) by (vm_compute; reflexivity).
  exists raw, st'. split; [exact Hrun|].
  apply (empty_environ_value_resolves_to_none 3 0 world_unset initial_state
           st' raw "PKG_MOD_X" (_Key_new ["pkg"; "mod"; "x"])
           (_Declaration_init (Leaf (Tuple3 (VStr "dflt") py_str "")))
           py_str).
  - reflexivity.
  - exact Hrun.
  - apply (bool_decide_unpack _). vm_compute. exact I.
  - apply (bool_decide_unpack _). vm_compute. exact I.
  - reflexivity.
  - reflexivity.
  - discriminate.
  - discriminate.
  - reflexivity.
  - reflexivity.
  - discriminate.
  - discriminate.
Defined.

(** C8 as stated fails for a leaf declared with [dict], a parser
    without the parse-none marker: with the variable of its key set to
    the empty string, the raw value is [None] and the leaf resolves to a
    mapping that holds [None] under the empty name. *)
Lemma empty_environ_value_dict_leaf :
  exists raw st',
    _coalesce_values 3 world_unset initial_state = Some (Ok (Some raw), st')
    /\ getitem raw "PKG_MOD_X" = Some VNone
    /\ parse_none_attr py_dict = false
    /\ _resolver (_Declaration_init (Leaf (Tuple3 VNone py_dict "")))
         0 st' (_Key_new ["pkg"; "mod"; "x"])
         (_Declaration_init (Leaf (Tuple3 VNone py_dict "")))
       = Some (Ok (VMap [("", VNone)])).
Proof.
  set (run := _coalesce_values 3 world_unset initial_state).
  exists (match run with Some (Ok (Some r), _) => r | _ => ∅ end),
         (match run with Some (_, s) => s | None => initial_state end).
  repeat split; vm_compute; reflexivity.
Qed.

(** ** The configuration of the engine itself *)

Lemma init_step (fuel : nat) (w : world) (name : string)
    (kwargs : list (string * nested decl_spec)) (st : pystate) :
  init (S fuel) w (caller_module name) kwargs st =
    if negb (bool_decide (root_package name ∈ deref (heap st) (_load_path st)))
    then
      Some (Err (AssertionError
                   [Lit name; Lit ": module root not in load_path (";
                    Shown (VList (VStr <$> deref (heap st) (_load_path st)));
                    Lit ")"]), st)
    else
      match _flatten_keys []
              (foldr (fun k kw => [(k, Node kw)]) kwargs (split "." name)) ∅
      with
      | Err e => Some (Err e, st)
      | Ok decls =>
          match _coalesce_values fuel w st with
          | None => None
          | Some (Err e, st1) => Some (Err e, st1)
          | Some (Ok _, st1) =>
              match _iter_decls fuel decls [] st1 with
              | None => None
              | Some (Err e, st2) => Some (Err e, st2)
              | Some (Ok res, st2) =>
                  Some (Some <$> subscript_path (split "." name) (VMap res),
                        st2)
              end
          end
      end.
Proof. reflexivity. Qed.

Lemma pkconfig_decls_flat :
  _flatten_keys []
    (foldr (fun k kw => [(k, Node kw)]) pkconfig_decls
       (split "." "pykern.pkconfig")) ∅
  = Ok pkconfig_flat_decls.
Proof. vm_compute. reflexivity. Qed.

Lemma pkconfig_decls_keys :
  sorted_keys pkconfig_flat_decls
  = ["PYKERN_PKCONFIG_CHANNEL"; "PYKERN_PKCONFIG_LOAD_PATH"].
Proof. vm_compute. reflexivity. Qed.

(** A text without braces, whatever the declaration. *)
Lemma resolve_value_no_brace (st : pystate) (raw kwargs : flatmap value)
    (fuel : nat) (key : _Key) (decl : _Declaration) (p : callable)
    (s : string) :
  _raw_values st = Some raw ->
  _parsed_values st = Some kwargs ->
  getitem raw (flat key) = Some (VStr s) ->
  no_brace s = true ->
  parser decl = Some p ->
  _resolve_value (S fuel) st key decl = Some (call p (VStr s)).
Proof.
  intros Hraw Hpv Hv Hs Hp. unfold _resolve_value. rewrite Hraw, Hv, Hpv.
  cbn [interpolate]. rewrite bool_decide_eq_false_2 by set_solver.
  unfold str_format. rewrite format_scan_no_brace by done.
  assert (Hseen : interpolate fuel (Some kwargs) ({[s]} ∪ ∅) (VStr s)
                  = Some (Ok (VStr s))).
  { destruct fuel; cbn [interpolate];
      by rewrite bool_decide_eq_true_2 by set_solver. }
  rewrite Hseen, Hp. reflexivity.
Qed.

(** [init] for [pykern.pkconfig] itself, on raw values that hold a
    channel and a load path. *)
Lemma init_pkconfig (fuel : nat) (w : world) (st st' : pystate)
    (raw : flatmap value) (ch : string) (lp : list value)
    (c : option value) :
  _raw_values st = Some raw ->
  raw_values_truthy st = true ->
  getitem raw CHANNEL_ENV_NAME = Some (VStr ch) ->
  no_brace ch = true ->
  getitem raw LOAD_PATH_ENV_NAME = Some (VList lp) ->
  init fuel w (caller_module "pykern.pkconfig") pkconfig_decls st
  = Some (Ok c, st') ->
  c = Some (VMap [("channel", VStr ch); ("load_path", VList lp)]).
Proof.
  intros Hraw Htruthy Hch Hnb Hlp Hrun.
  destruct fuel as [|fuel]; [done|]. rewrite init_step in Hrun.
  destruct (negb _); [done|]. rewrite pkconfig_decls_flat in Hrun.
  destruct fuel as [|fuel]; [done|].
  cbn [_coalesce_values] in Hrun. rewrite Htruthy in Hrun.
  unfold _iter_decls in Hrun. rewrite pkconfig_decls_keys in Hrun.
  cbn [iter_decls_loop] in Hrun.
  change (pkconfig_flat_decls !! "PYKERN_PKCONFIG_CHANNEL")
    with (Some (Some ["pykern"; "pkconfig"; "channel"],
                Required py_str "which (stage) function returns config"))
    in Hrun.
  change (pkconfig_flat_decls !! "PYKERN_PKCONFIG_LOAD_PATH")
    with (Some (Some ["pykern"; "pkconfig"; "load_path"],
                Required py_list "list of packages to configure"))
    in Hrun.
  cbv iota beta in Hrun.
  destruct (_parsed_values st) as [pv|] eqn:Hpv.
  - assert (H1 : iter_decl (S fuel)
                   (mk_Key "PYKERN_PKCONFIG_CHANNEL"
                           ["pykern"; "pkconfig"; "channel"])
                   (Required py_str "which (stage) function returns config")
                   [] st
                 = Some (Ok [("pykern",
                              VMap [("pkconfig", VMap [("channel", VStr ch)])])],
                         set_parsed_values
                           (Some (setitem "PYKERN_PKCONFIG_CHANNEL"
                                    (Some ["pykern"; "pkconfig"; "channel"])
                                    (VStr ch) pv)) st)).
    { unfold iter_decl. cbn [parts removelast res_walk alist_get last_item last
                             _Declaration_init group mbind result_bind].
      unfold _resolver. cbn [parser fmap option_fmap option_map ident py_str].
      match goal with
      | |- context [_resolve_value _ st ?k ?d] =>
          rewrite (resolve_value_no_brace st raw pv fuel k d py_str ch
                     Hraw Hpv Hch Hnb eq_refl)
      end.
      cbn [call py_str]. unfold record_parsed. rewrite Hpv. reflexivity. }
    rewrite H1 in Hrun.
    assert (H2 : iter_decl (S fuel)
                   (mk_Key "PYKERN_PKCONFIG_LOAD_PATH"
                           ["pykern"; "pkconfig"; "load_path"])
                   (Required py_list "list of packages to configure")
                   [("pykern",
                     VMap [("pkconfig", VMap [("channel", VStr ch)])])]
                   (set_parsed_values
                      (Some (setitem "PYKERN_PKCONFIG_CHANNEL"
                               (Some ["pykern"; "pkconfig"; "channel"])
                               (VStr ch) pv)) st)
                 = Some (Ok [("pykern",
                              VMap [("pkconfig",
                                     VMap [("channel", VStr ch);
                                           ("load_path", VList lp)])])],
                         set_parsed_values
                           (Some (setitem "PYKERN_PKCONFIG_LOAD_PATH"
                                    (Some ["pykern"; "pkconfig"; "load_path"])
                                    (VList lp)
                                    (setitem "PYKERN_PKCONFIG_CHANNEL"
                                       (Some ["pykern"; "pkconfig"; "channel"])
                                       (VStr ch) pv))) st)).
    { unfold iter_decl. unfold _resolver.
      cbn [parser fmap option_fmap option_map ident py_list _Declaration_init].
      unfold _resolve_list.
      cbn [default truthy _Declaration_init _raw_values set_parsed_values flat
           required].
      unfold LOAD_PATH_ENV_NAME in Hlp.
      rewrite Hraw, Hlp, app_nil_r. reflexivity. }
    rewrite H2 in Hrun. by injection Hrun as <- _.
  - assert (H1 : exists e,
               iter_decl (S fuel)
                 (mk_Key "PYKERN_PKCONFIG_CHANNEL"
                         ["pykern"; "pkconfig"; "channel"])
                 (Required py_str "which (stage) function returns config")
                 [] st = Some (Err e, st)).
    { unfold iter_decl. cbn [parts removelast res_walk alist_get last_item last
                             _Declaration_init group mbind result_bind].
      unfold _resolver. cbn [parser fmap option_fmap option_map ident py_str].
      unfold CHANNEL_ENV_NAME in Hch.
      unfold _resolve_value. cbn [flat]. rewrite Hraw, Hch, Hpv.
      cbn [interpolate].
      rewrite bool_decide_eq_false_2 by set_solver. by eexists. }
    destruct H1 as [e H1]. by rewrite H1 in Hrun.
Qed.

Lemma valid_channel_no_brace (ch : string) :
  ch ∈ VALID_CHANNELS -> no_brace ch = true.
Proof.
  intros H. repeat (apply elem_of_cons in H as [->|H]; [reflexivity|]).
  by apply elem_of_nil in H.
Qed.

Lemma coalesce_values_cfg (fuel : nat) (w : world) (st st' : pystate)
    (r : option (flatmap value)) :
  raw_values_truthy st = false ->
  _coalesce_values fuel w st = Some (Ok r, st') ->
  cfg st'
  = Some (VMap [("channel",
                 VStr (from_option id CHANNEL_DEFAULT
                         (getenv w CHANNEL_ENV_NAME)));
                ("load_path",
                 VList (VStr <$> deref (heap st') (_load_path st')))]).
Proof.
  intros Hfalse Hrun.
  destruct (coalesce_values_layers _ _ _ _ _ Hfalse Hrun)
    as (fuel' & st1 & files & merged & c & st4 & pv0 & -> & _ & Hm & Hi & Hch & Hr & ->).
  pose proof Hi as Hframe.
  apply init_frame in Hframe as (Hheap & Hlp & _ & _).
  2:{ unfold raw_values_truthy. simpl.
      rewrite bool_decide_eq_false_2; [done|]. apply setitem_nonempty. }
  simpl in Hheap, Hlp. cbn [cfg set_cfg heap _load_path]. rewrite Hheap, Hlp.
  eapply init_pkconfig in Hi; [by rewrite Hi|reflexivity| | | |].
  - unfold raw_values_truthy. simpl.
    rewrite bool_decide_eq_false_2; [done|]. apply setitem_nonempty.
  - rewrite !getitem_setitem. by repeat case_decide.
  - by apply valid_channel_no_brace.
  - rewrite !getitem_setitem. by case_decide.
Qed.

(** After coalescing, [cfg] holds the channel and the load path: the
    channel is the one named by the environment, [dev] when it names
    none, and the load path is the one of the module state. *)
Theorem coalesce_values_sets_cfg (fuel : nat) (w : world) (st st' : pystate)
    (r : option (flatmap value)) :
  raw_values_truthy st = false ->
  _coalesce_values fuel w st = Some (Ok r, st') ->
  cfg st'
  = Some (VMap [("channel",
                 VStr (from_option id CHANNEL_DEFAULT
                         (getenv w CHANNEL_ENV_NAME)));
                ("load_path",
                 VList (VStr <$> deref (heap st') (_load_path st')))]).
Proof. apply coalesce_values_cfg. Qed.

Lemma coalesce_values_sets_cfg_witness :
  cfg coalesced_state
  = Some (VMap [("channel",
                 VStr (from_option id CHANNEL_DEFAULT
                         (getenv bare_world CHANNEL_ENV_NAME)));
                ("load_path",
                 VList (VStr <$> deref (heap coalesced_state)
                                       (_load_path coalesced_state)))]).
Proof.
  apply (coalesce_values_sets_cfg 3 bare_world initial_state coalesced_state
           (_raw_values coalesced_state)).
  - reflexivity.
  - vm_compute. reflexivity.
Defined.

(** So, once the values are coalesced, [channel_in] answers by the
    channel of the environment. *)
Theorem channel_in_after_coalescing (fuel : nat) (w : world)
    (st st' : pystate) (r : option (flatmap value)) (args : list string) :
  raw_values_truthy st = false ->
  _coalesce_values fuel w st = Some (Ok r, st') ->
  (forall a, a ∈ args -> a ∈ VALID_CHANNELS) ->
  channel_in args st'
  = Ok (bool_decide (from_option id CHANNEL_DEFAULT
                       (getenv w CHANNEL_ENV_NAME) ∈ args)).
Proof.
  intros Hfalse Hrun Hvalid. unfold channel_in.
  rewrite (channel_in_from_valid
             (from_option id CHANNEL_DEFAULT (getenv w CHANNEL_ENV_NAME)));
    [done| |done].
  unfold cfg_channel.
  by rewrite (coalesce_values_cfg _ _ _ _ _ Hfalse Hrun).
Qed.

Lemma channel_in_after_coalescing_witness :
  channel_in ["dev"; "alpha"] coalesced_state
  = Ok (bool_decide (from_option id CHANNEL_DEFAULT
                       (getenv bare_world CHANNEL_ENV_NAME)
                     ∈ ["dev"; "alpha"])).
Proof.
  apply (channel_in_after_coalescing 3 bare_world initial_state
           coalesced_state (_raw_values coalesced_state)).
  - reflexivity.
  - vm_compute. reflexivity.
  - intros a Ha. apply (bool_decide_unpack _).
    repeat (apply elem_of_cons in Ha as [->|Ha]; [by vm_compute|]).
    by apply elem_of_nil in Ha.
Defined.

(** The load path after coalescing: the packages it held, followed by
    those named in the environment that it did not hold, each once. *)
Theorem coalesce_values_load_path (fuel : nat) (w : world) (st st' : pystate)
    (r : option (flatmap value)) (lp : list string) :
  raw_values_truthy st = false ->
  heap st !! _load_path st = Some lp ->
  _coalesce_values fuel w st = Some (Ok r, st') ->
  exists ext,
    deref (heap st') (_load_path st') = lp ++ ext
    /\ (forall p,
          p ∈ ext
          <-> p ∈ _load_path_parser (heap st)
                    (match getenv w LOAD_PATH_ENV_NAME with
                     | Some s => LpStr s
                     | None => LpList LOAD_PATH_DEFAULT
                     end)
              /\ p ∉ lp)
    /\ NoDup ext.
Proof.
  intros Hfalse Hlp Hrun.
  destruct (coalesce_values_layers _ _ _ _ _ Hfalse Hrun)
    as (fuel' & st1 & files & merged & c & st4 & pv0 & -> & Hst1 & _ & Hi & _ & _ & ->).
  apply init_frame in Hi as (Hheap & Hl & _ & _).
  2:{ unfold raw_values_truthy. simpl.
      rewrite bool_decide_eq_false_2; [done|]. apply setitem_nonempty. }
  simpl in Hheap, Hl. cbn [heap _load_path set_cfg]. rewrite Hheap, Hl, Hst1.
  destruct (append_load_path_state
              (match getenv w LOAD_PATH_ENV_NAME with
               | Some s => LpStr s
               | None => LpList LOAD_PATH_DEFAULT
               end) st lp Hlp) as (ext & Hst & Hext & Hnd).
  exists ext. rewrite Hst. simpl. split; [|done]. unfold deref.
  rewrite list_lookup_insert_eq; [done|]. by apply lookup_lt_Some in Hlp.
Qed.

Lemma coalesce_values_load_path_witness :
  exists ext,
    deref (heap growing_state) (_load_path growing_state) = ["pykern"] ++ ext
    /\ (forall p,
          p ∈ ext
          <-> p ∈ _load_path_parser (heap initial_state)
                    (match getenv growing_world LOAD_PATH_ENV_NAME with
                     | Some s => LpStr s
                     | None => LpList LOAD_PATH_DEFAULT
                     end)
              /\ p ∉ ["pykern"])
    /\ NoDup ext.
Proof.
  apply (coalesce_values_load_path 3 growing_world initial_state growing_state
           (_raw_values growing_state) ["pykern"]).
  - reflexivity.
  - reflexivity.
  - vm_compute. reflexivity.
Defined.

(** After [reset_state_for_testing] the next coalescing reads the
    environment again: [cfg] holds the channel of the world it runs in. *)
Theorem reset_then_coalesce_reads_again (fuel : nat) (w : world)
    (st st' : pystate) (r : option (flatmap value)) :
  _coalesce_values fuel w (reset_state_for_testing st) = Some (Ok r, st') ->
  cfg st'
  = Some (VMap [("channel",
                 VStr (from_option id CHANNEL_DEFAULT
                         (getenv w CHANNEL_ENV_NAME)));
                ("load_path",
                 VList (VStr <$> deref (heap st') (_load_path st')))])
  /\ r = _raw_values st'.
Proof.
  intros Hrun.
  assert (Hfalse : raw_values_truthy (reset_state_for_testing st) = false)
    by reflexivity.
  split; [by apply (coalesce_values_cfg _ _ _ _ _ Hfalse Hrun)|].
  destruct (coalesce_values_computed _ _ _ _ _ Hfalse Hrun)
    as (raw & ch & -> & -> & _). done.
Qed.

Lemma reset_then_coalesce_reads_again_witness :
  exists r st',
    _coalesce_values 3
      {| environ := [(CHANNEL_ENV_NAME, "prod")];
         base_pkconfig := fun _ => None;
         home_pkconfig := fun _ => None |}
      (reset_state_for_testing coalesced_state) = Some (Ok r, st')
    /\ cfg st'
       = Some (VMap [("channel", VStr "prod");
                     ("load_path", VList [VStr "pykern"])]).
Proof.
  set (w := {| environ := [(CHANNEL_ENV_NAME, "prod")];
               base_pkconfig := fun _ => None;
               home_pkconfig := fun _ => None |}).
  set (run := _coalesce_values 3 w (reset_state_for_testing coalesced_state)).
  set (r := match run with Some (Ok r, _) => r | _ => None end).
  set (st' := match run with Some (_, st') => st' | None => initial_state end).
  assert (Hrun : run = Some (Ok r, st')) by (vm_compute; reflexivity).
  exists r, st'. split; [exact Hrun|].
  destruct (reset_then_coalesce_reads_again 3 w coalesced_state st' r Hrun)
    as [Hc _].
  etransitivity; [exact Hc|]. vm_compute. reflexivity.
Defined.

(** ** Edges of flattening and of scalar resolution *)

(** A top-level key of a single ASCII character is never valid: the
    pattern asks for two characters at least. *)
Theorem single_character_key_invalid {A} (k0 : string) (v : nested A)
    (rest : list (string * nested A)) (res : flatmap A) :
  String.length k0 = 1 ->
  ascii_only k0 = true ->
  _flatten_keys [] ((k0, v) :: rest) res
  = Err (AssertionError [Lit k0; Lit ": invalid key must match "; ShownKeyRe]).
Proof.
  intros Hlen _. destruct k0 as [|c [|c' s]]; try done.
  unfold _flatten_keys. rewrite flatten_items_cons. cbv zeta.
  change (msg (_Key_new ([] ++ split "." (String c ""))))
    with (msg (_Key_new (split "." (String c "")))).
  rewrite key_msg_is_written_key.
  assert (Hbad : KEY_RE_search
                   (flat (_Key_new ([] ++ split "." (String c "")))) = false).
  { cbn [app split]. destruct (Ascii.eqb c ".") eqn:E; [reflexivity|].
    cbn [_Key_new flat join upper]. unfold KEY_RE_search. cbn [chomp_nl].
    destruct (Ascii.eqb (upper_ascii c) "010"); [done|].
    cbn [key_rest]. by rewrite andb_false_r. }
  by rewrite Hbad.
Qed.

Lemma single_character_key_invalid_witness :
  _flatten_keys [] [("x", Leaf (VInt 1))] ∅
  = Err (AssertionError [Lit "x"; Lit ": invalid key must match "; ShownKeyRe]).
Proof.
  exact (single_character_key_invalid "x" (Leaf (VInt 1)) [] ∅ eq_refl
           eq_refl).
Defined.

(** A parameter declared with the default [None] and configured nowhere
    resolves to [None]; its parser is not called, unless it carries the
    parse-none marker. *)
Theorem none_default_skips_parser (st : pystate) (raw : flatmap value)
    (fuel : nat) (key : _Key) (p : callable) (doc : string) :
  _raw_values st = Some raw ->
  getitem raw (flat key) = None ->
  parse_none_attr p = false ->
  _resolve_value fuel st key (_Declaration_init (Leaf (Tuple3 VNone p doc)))
  = Some (Ok VNone).
Proof.
  intros Hraw Hk Hp. unfold _resolve_value. rewrite Hraw, Hk. simpl.
  destruct fuel; simpl; by rewrite Hp.
Qed.

Lemma none_default_skips_parser_witness :
  _resolve_value 0 (set_raw_values (Some raw_items) initial_state)
    (_Key_new ["pkg"; "mod"; "control"])
    (_Declaration_init (Leaf (Tuple3 VNone py_str "")))
  = Some (Ok VNone).
Proof.
  exact (none_default_skips_parser
           (set_raw_values (Some raw_items) initial_state) raw_items 0
           (_Key_new ["pkg"; "mod"; "control"]) py_str "" eq_refl eq_refl
           eq_refl).
Defined.

(** ** The order of the load path *)

Lemma for_each_app {A S} (body : S -> A -> result S) (l1 l2 : list A) (s : S) :
  for_each body (l1 ++ l2) s = for_each body l1 s ≫= for_each body l2.
Proof.
  revert s. induction l1 as [|a l1 IH]; intros s; [done|].
  cbn [app for_each]. destruct (body s a) as [s'|e]; [|done].
  cbn [mbind result_bind]. apply IH.
Qed.

Lemma values_flatten_stores_scalar (base base' new_values : flatmap value)
    (new : list (string * nested value)) (k : string) (n : value) :
  _flatten_keys [] new ∅ = Ok new_values ->
  getitem new_values k = Some n ->
  is_list n = false ->
  _values_flatten base new = Ok base' ->
  getitem base' k = Some n.
Proof.
  intros Hf Hn Hl Hrun.
  pose proof (flatten_keys_parts new new_values Hf) as Hparts.
  unfold _values_flatten in Hrun. rewrite Hf in Hrun. simpl in Hrun.
  destruct (merge_loop_ok new_values Hparts _ _ _ (sorted_keys_NoDup _)
              (fun k => proj1 (sorted_keys_elem new_values k)) Hrun)
    as [Hin _].
  destruct (Hin k n) as [-> _]; [|done|].
  { apply sorted_keys_elem. unfold getitem in Hn.
    destruct (new_values !! k); [by eexists|done]. }
  destruct (getitem base k) as [b|]; [|done].
  by destruct b, n.
Qed.

Section LoadPathOrder.
Variable channel : string.
Variable load : string -> option (string -> option (list (string * nested value))).

Let body (values : flatmap value) (p : string) : result (flatmap value) :=
  merge_module channel (load p) values.

Lemma merge_modules_frame (k : string) (ps : list string) :
  forall values values',
    for_each body ps values = Ok values' ->
    (forall q, q ∈ ps -> supplied channel (load q) k = None) ->
    getitem values' k = getitem values k.
Proof.
  induction ps as [|q ps IH]; intros values values' Hrun Hnone.
  { by injection Hrun as <-. }
  cbn [for_each] in Hrun.
  destruct (body values q) as [v1|e] eqn:Hq; [|done].
  cbn [mbind result_bind] in Hrun.
  rewrite (IH v1 values' Hrun)
    by (intros q' Hq'; by apply Hnone, list_elem_of_further).
  pose proof (Hnone q (list_elem_of_here _ _)) as Hs.
  unfold body, merge_module in Hq. unfold supplied in Hs.
  destruct (load q) as [attrs|]; [|by injection Hq as <-].
  destruct (attrs channel) as [new|]; [|done].
  destruct (_flatten_keys [] new ∅) as [nv|e] eqn:Hf.
  - by apply (values_flatten_other_keys _ _ nv new k Hf Hq).
  - unfold _values_flatten in Hq. by rewrite Hf in Hq.
Qed.

(** The load path is an order of priority: after the loop over the
    packages, a key holds the value of the last package that supplies it,
    when that value is not a list. *)
Theorem later_package_overrides (ps1 ps2 : list string) (p k : string)
    (values values' : flatmap value) (n : value) :
  for_each (fun values q => merge_module channel (load q) values)
    (ps1 ++ p :: ps2) values = Ok values' ->
  supplied channel (load p) k = Some n ->
  is_list n = false ->
  (forall q, q ∈ ps2 -> supplied channel (load q) k = None) ->
  getitem values' k = Some n.
Proof.
  intros Hrun Hs Hl Hnone. fold body in Hrun.
  rewrite for_each_app in Hrun.
  destruct (for_each body ps1 values) as [v1|e]; [|done].
  cbn [mbind result_bind for_each] in Hrun.
  destruct (body v1 p) as [v2|e] eqn:Hp; [|done].
  cbn [mbind result_bind] in Hrun.
  rewrite (merge_modules_frame k ps2 v2 values' Hrun Hnone).
  unfold body, merge_module in Hp. unfold supplied in Hs.
  destruct (load p) as [attrs|]; [|done].
  destruct (attrs channel) as [new|]; [|done].
  destruct (_flatten_keys [] new ∅) as [nv|e] eqn:Hf; [|done].
  by apply (values_flatten_stores_scalar v1 v2 nv new k n).
Qed.
End LoadPathOrder.

Lemma later_package_overrides_witness :
  exists values',
    for_each
      (fun values q => merge_module "dev" (base_pkconfig two_packages q) values)
      (["p1"] ++ "p2" :: ["p3"]) ∅ = Ok values'
    /\ getitem values' "PKG_SUB_NAME" = Some (VStr "two").
Proof.
  set (run := for_each
                (fun values q =>
                   merge_module "dev" (base_pkconfig two_packages q) values)
                (["p1"] ++ "p2" :: ["p3"]) (∅ : flatmap value)).
  set (values' := match run with Ok v => v | Err _ => ∅ end).
  assert (Hrun : run = Ok values') by (vm_compute; reflexivity).
  exists values'. split; [exact Hrun|].
  apply (later_package_overrides "dev" (base_pkconfig two_packages)
           ["p1"] ["p3"] "p2" "PKG_SUB_NAME" ∅ values' (VStr "two") Hrun).
  - vm_compute. reflexivity.
  - reflexivity.
  - intros q Hq. apply list_elem_of_singleton in Hq as ->. reflexivity.
Defined.
